(** * CallInstrumentor: a shallow embedding of the call / loop instrumentor

    The development follows [CallInstrumentor] (TypeScript): the syntax tree
    of the host compiler is an inductive type, the mutable parts of the
    program (the [isInstrumented] map, the marker symbol carried by call
    nodes, the counters of the node factory and the console) are one record
    threaded through a small state monad, and the helpers imported from
    [../createNode] and [../utils], whose code is not part of the files at
    hand, are the variables of a section. *)

From Stdlib Require Import String Ascii List NArith PArith Lia HexString.
From stdpp Require Import base option gmap strings.
Import ListNotations.
Local Open Scope string_scope.
Local Open Scope list_scope.
Set Warnings "-register-all".

(** ** Syntax trees *)

(** An identifier: its [text], and the id that [createUniqueName] gives to a
    generated name ([None] for a name that comes from the source). *)
Record Ident := mkIdent { text : string; autoGenerateId : option N }.

Inductive NodeFlags := FlagsNone | FlagsLet | FlagsConst.

(** The part of the host's syntax that the instrumentor reads or builds.
    A call expression carries [nid], the identity of the node object: the
    instrumentor stores a marker property on call nodes, and two call nodes
    with the same shape are still two objects.  [OtherNode] stands for every
    syntax kind the instrumentor never looks into. *)
Inductive Node :=
| Identifier (name : Ident)
| ThisKeyword
| StringLiteral (value : string)
| PropertyAccessExpression (expression : Node) (name : Ident)
| CallExpression (nid : positive) (expression : Node)
    (typeArguments : option (list Node)) (arguments : list Node)
| ParenthesizedExpression (expression : Node)
| ArrowFunction (modifiers typeParameters : option (list Node))
    (parameters : list Node) (type : option Node) (body : Node)
| Block (statements : list Node) (multiLine : bool)
| ExpressionStatement (expression : Node)
| VariableDeclaration (name : Node) (exclamationToken type initializer : option Node)
| VariableDeclarationList (declarations : list Node) (flags : NodeFlags)
| VariableStatement (modifiers : option (list Node)) (declarationList : Node)
| ReturnStatement (expression : option Node)
| ForStatement (initializer condition incrementor : option Node) (statement : Node)
| ForOfStatement (awaitModifier : option Node) (initializer expression statement : Node)
| ForInStatement (initializer expression statement : Node)
| WhileStatement (expression statement : Node)
| SourceFile (statements : list Node)
| OtherNode (kind : string) (children : list Node).

Definition isSourceFile (n : Node) : bool :=
  match n with SourceFile _ => true | _ => false end.
Definition isCallExpression (n : Node) : bool :=
  match n with CallExpression _ _ _ _ => true | _ => false end.
Definition isForStatement (n : Node) : bool :=
  match n with ForStatement _ _ _ _ => true | _ => false end.
Definition isForOfStatement (n : Node) : bool :=
  match n with ForOfStatement _ _ _ _ => true | _ => false end.
Definition isForInStatement (n : Node) : bool :=
  match n with ForInStatement _ _ _ => true | _ => false end.

(** [node.statement] of a loop. *)
Definition statement_of (n : Node) : option Node :=
  match n with
  | ForStatement _ _ _ b | ForOfStatement _ _ _ b | ForInStatement _ _ b
  | WhileStatement _ b => Some b
  | _ => None
  end.

(** Number of constructors of a tree. *)
Fixpoint size (n : Node) : nat :=
  let sizes := fix sizes (l : list Node) : nat :=
    match l with [] => 0 | x :: r => size x + sizes r end in
  let osize := fun (o : option Node) =>
    match o with Some x => size x | None => 0 end in
  let osizes := fun (o : option (list Node)) =>
    match o with Some l => sizes l | None => 0 end in
  S match n with
    | Identifier _ | ThisKeyword | StringLiteral _ => 0
    | PropertyAccessExpression e _ => size e
    | CallExpression _ e ta args => size e + osizes ta + sizes args
    | ParenthesizedExpression e => size e
    | ArrowFunction m tp ps t b => osizes m + osizes tp + sizes ps + osize t + size b
    | Block ss _ => sizes ss
    | ExpressionStatement e => size e
    | VariableDeclaration nm ex t i => size nm + osize ex + osize t + osize i
    | VariableDeclarationList ds _ => sizes ds
    | VariableStatement m dl => osizes m + size dl
    | ReturnStatement e => osize e
    | ForStatement i c u b => osize i + osize c + osize u + size b
    | ForOfStatement a i e b => osize a + size i + size e + size b
    | ForInStatement i e b => size i + size e + size b
    | WhileStatement e b => size e + size b
    | SourceFile ss => sizes ss
    | OtherNode _ cs => sizes cs
    end.

(** How many times the call node object [i] occurs in a tree.  The search
    stops at the object itself: what is below it is that same object's. *)
Fixpoint occurrences (i : positive) (n : Node) : nat :=
  let occs := fix occs (l : list Node) : nat :=
    match l with [] => 0 | x :: r => occurrences i x + occs r end in
  let oocc := fun (o : option Node) =>
    match o with Some x => occurrences i x | None => 0 end in
  let ooccs := fun (o : option (list Node)) =>
    match o with Some l => occs l | None => 0 end in
  match n with
  | Identifier _ | ThisKeyword | StringLiteral _ => 0
  | PropertyAccessExpression e _ => occurrences i e
  | CallExpression j e ta args =>
      if Pos.eqb i j then 1 else occurrences i e + ooccs ta + occs args
  | ParenthesizedExpression e => occurrences i e
  | ArrowFunction m tp ps t b =>
      ooccs m + ooccs tp + occs ps + oocc t + occurrences i b
  | Block ss _ => occs ss
  | ExpressionStatement e => occurrences i e
  | VariableDeclaration nm ex t ini =>
      occurrences i nm + oocc ex + oocc t + oocc ini
  | VariableDeclarationList ds _ => occs ds
  | VariableStatement m dl => ooccs m + occurrences i dl
  | ReturnStatement e => oocc e
  | ForStatement ini c u b => oocc ini + oocc c + oocc u + occurrences i b
  | ForOfStatement a ini e b =>
      oocc a + occurrences i ini + occurrences i e + occurrences i b
  | ForInStatement ini e b => occurrences i ini + occurrences i e + occurrences i b
  | WhileStatement e b => occurrences i e + occurrences i b
  | SourceFile ss => occs ss
  | OtherNode _ cs => occs cs
  end.

(** [occurrences] summed over a statement list. *)
Definition occurrences_list (i : positive) (l : list Node) : nat :=
  fold_right (fun x acc => occurrences i x + acc) 0 l.

(** ** Strings *)

(** [s.replace(/c/g, d)]: every occurrence of the character [c] becomes [d]. *)
Fixpoint replaceAll (c d : ascii) (s : string) : string :=
  match s with
  | EmptyString => EmptyString
  | String a r => String (if Ascii.eqb a c then d else a) (replaceAll c d r)
  end.

(** [s.startsWith(p)]. *)
Definition startsWith (s p : string) : bool := String.prefix p s.

(** Whether the character [c] occurs in [s]. *)
Fixpoint hasChar (c : ascii) (s : string) : bool :=
  match s with
  | EmptyString => false
  | String a r => Ascii.eqb a c || hasChar c r
  end.

(** ** The mutable state *)

(** The counters of the host's node factory: the next node object and the
    next id of a generated name. *)
Record NodeFactory := mkFactory { nextNodeId : positive; nextAutoGenerateId : N }.

(** Everything the instrumentor can change: its [isInstrumented] map, the
    set of call node objects that carry the [INSTRUMENTED_SYMBOL] property,
    the factory and the lines written to the console. *)
Record World := mkWorld {
  isInstrumented : gmap string bool;
  marked : gset positive;
  factory : NodeFactory;
  console : list string
}.

Definition Fac (A : Type) : Type := NodeFactory -> A * NodeFactory.
Definition M (A : Type) : Type := World -> A * World.

#[global] Instance M_ret : MRet M := fun A a w => (a, w).
#[global] Instance M_bind : MBind M :=
  fun A B f m w => let '(a, w') := m w in f a w'.
#[global] Instance Fac_ret : MRet Fac := fun A a w => (a, w).
#[global] Instance Fac_bind : MBind Fac :=
  fun A B f m w => let '(a, w') := m w in f a w'.

(** Run a factory computation on the factory of the world. *)
Definition liftF {A} (c : Fac A) : M A :=
  fun w => let '(a, f') := c (factory w) in
           (a, mkWorld (isInstrumented w) (marked w) f' (console w)).

Definition getWorld : M World := fun w => (w, w).

(** [this.isInstrumented.set(name, true)] *)
Definition setInstrumented (name : string) : M unit :=
  fun w => (tt, mkWorld (<[name := true]> (isInstrumented w)) (marked w)
                        (factory w) (console w)).

(** [(node as any)[this.INSTRUMENTED_SYMBOL] = true]: the property is stored
    on the node object. *)
Definition setMarker (n : Node) : M unit :=
  fun w => match n with
           | CallExpression i _ _ _ =>
               (tt, mkWorld (isInstrumented w) ({[ i ]} ∪ marked w)
                            (factory w) (console w))
           | _ => (tt, w)
           end.

(** [console.log(...)] of the instrumentor itself. *)
Definition consoleLog (line : string) : M unit :=
  fun w => (tt, mkWorld (isInstrumented w) (marked w) (factory w)
                        (console w ++ [line])).

(** Truthiness of [this.isInstrumented.get(name)]. *)
Definition nameFlag (w : World) (name : string) : bool :=
  match isInstrumented w !! name with Some true => true | _ => false end.

(** Truthiness of [(node as any)[this.INSTRUMENTED_SYMBOL]]. *)
Definition hasMarker (w : World) (n : Node) : bool :=
  match n with
  | CallExpression i _ _ _ => bool_decide (i ∈ marked w)
  | _ => false
  end.

(** ** The node factory *)

(** [factory.createUniqueName(text)]: an identifier with the given text and
    the next auto-generate id. *)
Definition createUniqueName (t : string) : Fac Ident :=
  fun f => (mkIdent t (Some (nextAutoGenerateId f)),
            mkFactory (nextNodeId f) (N.succ (nextAutoGenerateId f))).

Definition createIdentifier (t : string) : Ident := mkIdent t None.

(** [factory.createCallExpression]: a new call node object. *)
Definition createCallExpression (e : Node) (ta : option (list Node))
    (args : list Node) : Fac Node :=
  fun f => (CallExpression (nextNodeId f) e ta args,
            mkFactory (Pos.succ (nextNodeId f)) (nextAutoGenerateId f)).

(** [console.log(msg);] as a statement of the generated program. *)
Definition createConsoleLogStatement (msg : string) : Fac Node :=
  c ← createCallExpression
         (PropertyAccessExpression (Identifier (createIdentifier "console"))
                                   (createIdentifier "log"))
         None [StringLiteral msg];
  mret (ExpressionStatement c).

(** The names that are never wrapped, in the order of the set. *)
Definition EXCLUDED_FUNCTIONS : list string :=
  ["console.log"; "process.on"; "performance.now"; "Math.max"; "Math.min"].

Section CallInstrumentor.

(** [getHash] of [../utils] and the host's [node.getText()].  The host
    gives the text of a node that has a place in a source file, that is of a
    node that comes from the parser; what is proved about [getText] is meant
    for such nodes. *)
Variable getHash : string -> string.
Variable getText : Node -> string.

(** The statement builders of [../createNode] ([Creator]); they build
    nodes with the host's factory and see nothing else of the state. *)
Variable createFunctionData : string -> Fac Node.
Variable createIncrementCallCount : string -> Fac Node.
Variable createBeginFunctionLog : Ident -> Fac Node.
Variable createEndFunctionLog : string -> Ident -> Ident -> Fac (list Node).
Variable createLoopData : string -> Fac Node.
Variable createIncrementIteration : string -> Fac Node.
Variable createInitStmt : Fac (list Node).

Fixpoint getFunctionName (node : Node) : string :=
  match node with
  | CallExpression _ callee _ _ | PropertyAccessExpression callee _ =>
      match callee with
      | Identifier i => text i
      | PropertyAccessExpression e nm =>
          match e with
          | ThisKeyword => "this." ++ text nm
          | _ => getFunctionName callee ++ "." ++ text nm
          end
      | _ => "anonymous_" ++ getHash (getText node)
      end
  | _ => "anonymous_" ++ getHash (getText node)
  end.

(** The loop over [EXCLUDED_FUNCTIONS] of [shouldInstrumentCall]. *)
Fixpoint notExcluded (functionName : string) (l : list string) : bool :=
  match l with
  | [] => true
  | excluded :: r =>
      if String.eqb functionName excluded
         || startsWith functionName (excluded ++ ".")
      then false
      else notExcluded functionName r
  end.

Definition shouldInstrumentCall (node : Node) : M bool :=
  let functionName := getFunctionName node in
  _ ← consoleLog ("functionName: " ++ functionName);
  mret (notExcluded functionName EXCLUDED_FUNCTIONS).

Definition _instrumentCall (node : Node) : M Node :=
  let functionName := getFunctionName node in
  w ← getWorld;
  if nameFlag w functionName && hasMarker w node then mret node
  else
    _ ← setInstrumented functionName;
    _ ← setMarker node;
    let functionNameFormatted := replaceAll "." "_" functionName in
    beforeLog ← liftF (createConsoleLogStatement
                         ("[PREF] begin call " ++ functionNameFormatted));
    afterLog ← liftF (createConsoleLogStatement
                        ("[PREF] end call " ++ functionNameFormatted));
    resultVarName ← liftF (createUniqueName "result");
    let varDeclaration :=
      VariableDeclaration (Identifier resultVarName) None None (Some node) in
    let varDeclList := VariableDeclarationList [varDeclaration] FlagsConst in
    let varStmt := VariableStatement None varDeclList in
    let returnStmt := ReturnStatement (Some (Identifier resultVarName)) in
    startTimeVar ← liftF (createUniqueName ("__call_start_" ++ functionNameFormatted));
    endTimeVar ← liftF (createUniqueName ("__call_end_" ++ functionNameFormatted));
    functionData ← liftF (createFunctionData functionName);
    incrementCallCount ← liftF (createIncrementCallCount functionName);
    beginFunctionLog ← liftF (createBeginFunctionLog startTimeVar);
    endFunctionLog ← liftF (createEndFunctionLog functionName startTimeVar endTimeVar);
    let block :=
      Block ([beforeLog; functionData; incrementCallCount; beginFunctionLog; varStmt]
               ++ endFunctionLog ++ [afterLog; returnStmt]) true in
    let arrowFunction := ArrowFunction None None [] None block in
    liftF (createCallExpression (ParenthesizedExpression arrowFunction) None []).

Definition getNodeUniqueName (node : Node) : Fac string :=
  if isForStatement node then
    n ← createUniqueName ("for_" ++ getHash (getText node)); mret (text n)
  else if isForOfStatement node then
    n ← createUniqueName ("forof_" ++ getHash (getText node)); mret (text n)
  else if isForInStatement node then
    n ← createUniqueName ("forin_" ++ getHash (getText node)); mret (text n)
  else mret "".

Definition _instrumentLoop (node : Node) : Fac Node :=
  base ← getNodeUniqueName node;
  loopName ← createUniqueName base;
  loopData ← createLoopData (text loopName);
  incrementIteration ← createIncrementIteration (text loopName);
  match node with
  | ForStatement initializer condition incrementor statement =>
      mret (ForStatement initializer condition incrementor
              (Block [loopData; incrementIteration; statement] true))
  | ForOfStatement awaitModifier initializer expression statement =>
      mret (ForOfStatement awaitModifier initializer expression
              (Block [loopData; incrementIteration; statement] true))
  | ForInStatement initializer expression statement =>
      mret (ForInStatement initializer expression
              (Block [loopData; incrementIteration; statement] true))
  | _ => mret node
  end.

Definition instrumentFunction (node : Node) : M Node :=
  match node with
  | SourceFile statements =>
      initStmt ← liftF createInitStmt;
      mret (SourceFile (initStmt ++ statements))
  | _ =>
      node1 ← (if isCallExpression node then
                 b ← shouldInstrumentCall node;
                 if b : bool then _instrumentCall node else mret node
               else mret node);
      if isForStatement node1 || isForOfStatement node1 || isForInStatement node1
      then liftF (_instrumentLoop node1)
      else mret node1
  end.

(** The worlds reached from a world by any number of further visits of
    [instrumentFunction], whatever nodes the walker hands over. *)
Inductive visits : World -> World -> Prop :=
| visits_refl w : visits w w
| visits_step w n w' : visits (snd (instrumentFunction n w)) w' -> visits w w'.

End CallInstrumentor.

(** ** Property-access chains *)

(** [base.m1.m2...mk]: the members are applied from the left. *)
Definition accessChain (base : Node) (members : list Ident) : Node :=
  fold_left PropertyAccessExpression members base.

(** [prefix.m1.m2...mk] on names. *)
Definition dotted (prefix : string) (members : list Ident) : string :=
  fold_left (fun acc m => (acc ++ "." ++ text m)%string) members prefix.

(** A base that is neither a name, nor [this], nor a property access. *)
Definition otherShape (n : Node) : bool :=
  match n with
  | Identifier _ | ThisKeyword | PropertyAccessExpression _ _ => false
  | _ => true
  end.

(** A statement builder that creates its nodes with the factory: the tree it
    returns holds no call node object that existed before, and it never
    moves the node counter back. *)
Definition buildsNewNodes {A} (occ : positive -> A -> nat) (c : Fac A) : Prop :=
  forall f,
    (nextNodeId f <= nextNodeId (snd (c f)))%positive /\
    forall i, (i < nextNodeId f)%positive -> occ i (fst (c f)) = 0.

(** [console.log(msg);] built around the call node object [i]. *)
Definition consoleLogStatement (i : positive) (msg : string) : Node :=
  ExpressionStatement
    (CallExpression i
       (PropertyAccessExpression (Identifier (createIdentifier "console"))
                                 (createIdentifier "log"))
       None [StringLiteral msg]).

(** [const name = init;] *)
Definition constStatement (name : Ident) (init : Node) : Node :=
  VariableStatement None
    (VariableDeclarationList
       [VariableDeclaration (Identifier name) None None (Some init)] FlagsConst).

(** [(() => { statements })()] built around the call node object [i]: a
    call, without arguments, of a parenthesized arrow function without
    parameters. *)
Definition iife (i : positive) (statements : list Node) : Node :=
  CallExpression i
    (ParenthesizedExpression
       (ArrowFunction None None [] None (Block statements true)))
    None [].

Definition isIife (n : Node) : bool :=
  match n with
  | CallExpression _
      (ParenthesizedExpression (ArrowFunction None None [] None (Block _ true)))
      None [] => true
  | _ => false
  end.

(** The three loop kinds that [_instrumentLoop] rebuilds. *)
Definition isInstrumentedLoopKind (n : Node) : bool :=
  isForStatement n || isForOfStatement n || isForInStatement n.

(** Flags and markers are only ever added on the way from [w] to [w']. *)
Definition grows (w w' : World) : Prop :=
  (forall k, isInstrumented w !! k = Some true -> isInstrumented w' !! k = Some true)
  /\ marked w ⊆ marked w'.

(** [node.expression] of the two kinds of node the name resolver is run
    on: a call expression and a property access. *)
Definition calleeOf (n : Node) : option Node :=
  match n with
  | CallExpression _ e _ _ | PropertyAccessExpression e _ => Some e
  | _ => None
  end.

(** ** Running a loop

    How the host language runs a block and a loop statement, as far as the
    order of the parts goes: a block runs its statements in turn and stops at
    the first one that does not complete normally; a loop asks its header
    whether there is a further iteration, runs its statement once if there
    is, and goes on unless the statement breaks out or leaves abruptly.  What
    the header parts and all other statements do to the state of the program
    is the host's. *)

(** How a statement completes: normally, by [break], by [continue], or
    abruptly ([return], [throw], a jump to an outer label). *)
Inductive Completion := Normal | Break | Continue | Abrupt.

(** A loop statement without its body. *)
Inductive LoopHeader :=
| ForHeader (initializer condition incrementor : option Node)
| ForOfHeader (awaitModifier : option Node) (initializer expression : Node)
| ForInHeader (initializer expression : Node).

(** The header and the body of a loop of the three kinds. *)
Definition loopParts (n : Node) : option (LoopHeader * Node) :=
  match n with
  | ForStatement i c u b => Some (ForHeader i c u, b)
  | ForOfStatement a i e b => Some (ForOfHeader a i e, b)
  | ForInStatement i e b => Some (ForInHeader i e, b)
  | _ => None
  end.

Section Execution.

(** The state of the running program, as the program itself can see it;
    what the telemetry sink keeps for itself is not part of it. *)
Variable Store : Type.

(** The host's run of a statement that is neither a block nor a loop of the
    three kinds. *)
Variable execOther : Node -> Store -> Completion * Store.

(** What the header does before the iteration number [k]: for a [for]
    loop the initializer (for [k = 0]) or the incrementor, then the
    condition; for [for...of] and [for...in] the next item and its binding.
    [Some true]: there is an iteration; [Some false]: the loop is over;
    [None]: the header threw. *)
Variable headerStep : LoopHeader -> nat -> Store -> option bool * Store.

(** What the header does when the body leaves the loop (closing the
    iterator of a [for...of]). *)
Variable headerLeave : LoopHeader -> Store -> Store.

(** The iterations of a loop from number [k] on, with at most [fuel] of
    them; the result holds the number of runs of the body. *)
Fixpoint iterate (fuel : nat) (step : nat -> Store -> option bool * Store)
    (leave : Store -> Store) (body : Store -> option (Completion * Store))
    (k : nat) (s : Store) : option (Completion * Store * nat) :=
  match fuel with
  | 0 => None
  | S f =>
      match step k s with
      | (None, s1) => Some (Abrupt, s1, k)
      | (Some false, s1) => Some (Normal, s1, k)
      | (Some true, s1) =>
          match body s1 with
          | None => None
          | Some (Normal, s2) | Some (Continue, s2) =>
              iterate f step leave body (S k) s2
          | Some (Break, s2) => Some (Normal, leave s2, S k)
          | Some (Abrupt, s2) => Some (Abrupt, leave s2, S k)
          end
      end
  end.

Definition dropCount (r : option (Completion * Store * nat))
  : option (Completion * Store) :=
  match r with Some (c, s, _) => Some (c, s) | None => None end.

(** The run of a statement; loops nest at most [fuel] deep and make at most
    [fuel] iterations each ([None] when that is not enough). *)
Fixpoint exec (fuel : nat) : Node -> Store -> option (Completion * Store) :=
  fix go (n : Node) : Store -> option (Completion * Store) :=
    let runLoop := fun (h : LoopHeader) (b : Node) (s : Store) =>
      match fuel with
      | 0 => None
      | S f => dropCount (iterate f (headerStep h) (headerLeave h) (exec f b) 0 s)
      end in
    match n with
    | Block ss _ =>
        (fix seq (l : list Node) (s : Store) : option (Completion * Store) :=
           match l with
           | [] => Some (Normal, s)
           | x :: r =>
               match go x s with
               | Some (Normal, s') => seq r s'
               | other => other
               end
           end) ss
    | ForStatement i c u b => runLoop (ForHeader i c u) b
    | ForOfStatement a i e b => runLoop (ForOfHeader a i e) b
    | ForInStatement i e b => runLoop (ForInHeader i e) b
    | _ => fun s => Some (execOther n s)
    end.

(** The run of a loop of the three kinds, with the number of runs of its
    body. *)
Definition loopRun (fuel : nat) (n : Node) (s : Store)
  : option (Completion * Store * nat) :=
  match fuel, loopParts n with
  | S f, Some (h, b) => iterate f (headerStep h) (headerLeave h) (exec f b) 0 s
  | _, _ => None
  end.

End Execution.

(** ** A sample host

    A concrete hash, a printer standing for [getText] and concrete statement
    builders, to run the definitions on examples. *)
Module Sample.

(** A 32-bit polynomial checksum, in hexadecimal. *)
Definition getHash (s : string) : string :=
  HexString.of_N
    (fold_left (fun acc a => ((acc * 31 + N_of_ascii a) mod 4294967296)%N)
               (list_ascii_of_string s) 5381%N).

Definition commaSep (l : list string) : string := String.concat ", " l.

(** The text of a node, printed back from the tree. *)
Fixpoint getText (n : Node) : string :=
  let texts := fix texts (l : list Node) : list string :=
    match l with [] => [] | x :: r => getText x :: texts r end in
  let otext := fun (o : option Node) =>
    match o with Some x => getText x | None => "" end in
  match n with
  | Identifier i => text i
  | ThisKeyword => "this"
  | StringLiteral v => "'" ++ v ++ "'"
  | PropertyAccessExpression e m => getText e ++ "." ++ text m
  | CallExpression _ e _ args => getText e ++ "(" ++ commaSep (texts args) ++ ")"
  | ParenthesizedExpression e => "(" ++ getText e ++ ")"
  | ArrowFunction _ _ ps _ b => "(" ++ commaSep (texts ps) ++ ") => " ++ getText b
  | Block ss _ => "{ " ++ String.concat " " (texts ss) ++ " }"
  | ExpressionStatement e => getText e ++ ";"
  | VariableDeclaration nm _ _ i =>
      getText nm ++ match i with Some x => " = " ++ getText x | None => "" end
  | VariableDeclarationList ds fl =>
      match fl with FlagsConst => "const " | FlagsLet => "let " | FlagsNone => "var " end
      ++ commaSep (texts ds)
  | VariableStatement _ dl => getText dl ++ ";"
  | ReturnStatement e => "return " ++ otext e ++ ";"
  | ForStatement i c u b =>
      "for (" ++ otext i ++ "; " ++ otext c ++ "; " ++ otext u ++ ") " ++ getText b
  | ForOfStatement _ i e b =>
      "for (" ++ getText i ++ " of " ++ getText e ++ ") " ++ getText b
  | ForInStatement i e b =>
      "for (" ++ getText i ++ " in " ++ getText e ++ ") " ++ getText b
  | WhileStatement e b => "while (" ++ getText e ++ ") " ++ getText b
  | SourceFile ss => String.concat " " (texts ss)
  | OtherNode k _ => k
  end.

(** [__perf.<method>(<args>);] *)
Definition perfCall (method : string) (args : list Node) : Fac Node :=
  c ← createCallExpression
         (PropertyAccessExpression (Identifier (createIdentifier "__perf"))
                                   (createIdentifier method))
         None args;
  mret (ExpressionStatement c).

Definition createFunctionData (name : string) : Fac Node :=
  perfCall "registerCall" [StringLiteral name].
Definition createIncrementCallCount (name : string) : Fac Node :=
  perfCall "incrementCallCount" [StringLiteral name].
Definition createBeginFunctionLog (startVar : Ident) : Fac Node :=
  c ← createCallExpression
         (PropertyAccessExpression (Identifier (createIdentifier "performance"))
                                   (createIdentifier "now"))
         None [];
  mret (VariableStatement None
          (VariableDeclarationList
             [VariableDeclaration (Identifier startVar) None None (Some c)]
             FlagsConst)).
Definition createEndFunctionLog (name : string) (startVar endVar : Ident)
  : Fac (list Node) :=
  c ← createCallExpression
         (PropertyAccessExpression (Identifier (createIdentifier "performance"))
                                   (createIdentifier "now"))
         None [];
  r ← perfCall "recordTime" [StringLiteral name; Identifier startVar; Identifier endVar];
  mret [VariableStatement None
          (VariableDeclarationList
             [VariableDeclaration (Identifier endVar) None None (Some c)]
             FlagsConst); r].
Definition createLoopData (name : string) : Fac Node :=
  perfCall "registerLoop" [StringLiteral name].
Definition createIncrementIteration (name : string) : Fac Node :=
  perfCall "incrementIteration" [StringLiteral name].
Definition createInitStmt : Fac (list Node) :=
  s ← perfCall "init" []; mret [s].

Definition getFunctionName := getFunctionName getHash getText.
Definition shouldInstrumentCall := shouldInstrumentCall getHash getText.
Definition _instrumentCall :=
  _instrumentCall getHash getText createFunctionData createIncrementCallCount
                  createBeginFunctionLog createEndFunctionLog.
Definition _instrumentLoop :=
  _instrumentLoop getHash getText createLoopData createIncrementIteration.
Definition instrumentFunction :=
  instrumentFunction getHash getText createFunctionData createIncrementCallCount
    createBeginFunctionLog createEndFunctionLog createLoopData
    createIncrementIteration createInitStmt.

(** A world in which nothing has been instrumented; the parser has handed
    out the node objects below 100. *)
Definition world0 : World := mkWorld ∅ ∅ (mkFactory 100 0) [].

(** The world in which the name "add" is flagged and the node object 1
    carries the marker. *)
Definition world1 : World := mkWorld {[ "add"%string := true ]} {[ 1%positive ]} (mkFactory 100 0) [].

Definition ident (s : string) : Node := Identifier (createIdentifier s).
Definition num (s : string) : Node := OtherNode s [].

(** [multiply(2, 3)] and [add(1, multiply(2, 3))] *)
Definition multiplyCall : Node := CallExpression 2 (ident "multiply") None [num "2"; num "3"].
Definition addCall : Node := CallExpression 1 (ident "add") None [num "1"; multiplyCall].
(** a second call [add(4, 5)] elsewhere in the file *)
Definition addCall2 : Node := CallExpression 3 (ident "add") None [num "4"; num "5"].
(** [console.log('hi')], [someLogger.log('hi')], [this.run()] *)
Definition consoleLogCall : Node :=
  CallExpression 4 (PropertyAccessExpression (ident "console") (createIdentifier "log"))
                 None [StringLiteral "hi"].
Definition someLoggerCall : Node :=
  CallExpression 5 (PropertyAccessExpression (ident "someLogger") (createIdentifier "log"))
                 None [StringLiteral "hi"].
Definition thisRunCall : Node :=
  CallExpression 6 (PropertyAccessExpression ThisKeyword (createIdentifier "run")) None [].
(** [f()], [f().m] and [f().m(x)] *)
Definition fCall : Node := CallExpression 7 (ident "f") None [].
Definition fCallM : Node := PropertyAccessExpression fCall (createIdentifier "m").
Definition fmCall : Node := CallExpression 8 fCallM None [ident "x"].
(** [(g)(1)] *)
Definition parenCall : Node :=
  CallExpression 9 (ParenthesizedExpression (ident "g")) None [num "1"].
(** [for (i = 0; i < 5; i++) sum += i;] and the other loop kinds *)
Definition sumBody : Node := ExpressionStatement (num "sum += i").
Definition forLoop : Node :=
  ForStatement (Some (num "i = 0")) (Some (num "i < 5")) (Some (num "i++")) sumBody.
Definition forOfLoop : Node := ForOfStatement None (num "const i") (ident "xs") sumBody.
Definition forInLoop : Node := ForInStatement (num "const i") (ident "xs") sumBody.
Definition whileLoop : Node := WhileStatement (num "i < 5") sumBody.
Definition unit1 : Node := SourceFile [ExpressionStatement addCall; forLoop].
(** [a.b.c()] and [this.a.b()] *)
Definition abcCall : Node :=
  CallExpression 10 (accessChain (ident "a") [createIdentifier "b"; createIdentifier "c"])
                 None [].
Definition thisAbCall : Node :=
  CallExpression 11 (accessChain ThisKeyword [createIdentifier "a"; createIdentifier "b"])
                 None [].
(** [console.log.bind(x)] *)
Definition consoleLogBindCall : Node :=
  CallExpression 12
    (accessChain (ident "console") [createIdentifier "log"; createIdentifier "bind"])
    None [ident "x"].
(** [for (i = 0; i < 5; i++) { __perf.registerLoop('k'); __perf.incrementIteration('k'); sum += i; }]:
    an instrumented loop as the parser reads it back from the printed file. *)
Definition wrappedBody : Node :=
  Block [ExpressionStatement
           (CallExpression 20
              (PropertyAccessExpression (ident "__perf") (createIdentifier "registerLoop"))
              None [StringLiteral "k"]);
         ExpressionStatement
           (CallExpression 21
              (PropertyAccessExpression (ident "__perf")
                                        (createIdentifier "incrementIteration"))
              None [StringLiteral "k"]);
         sumBody] true.
Definition wrappedForLoop : Node :=
  ForStatement (Some (num "i = 0")) (Some (num "i < 5")) (Some (num "i++")) wrappedBody.

(** A host for [forLoop]: the state is the pair of [i] and [sum]; the header
    is that of [for (i = 0; i < 5; i++)]; [sum += i;] adds, every other
    statement (the calls of [__perf] among them) leaves the state. *)
Definition Store : Type := (nat * nat)%type.
Definition execOther (n : Node) (s : Store) : Completion * Store :=
  match n with
  | ExpressionStatement (OtherNode k _) =>
      if String.eqb k "sum += i" then (Normal, (fst s, snd s + fst s)) else (Normal, s)
  | _ => (Normal, s)
  end.
Definition headerStep (h : LoopHeader) (k : nat) (s : Store) : option bool * Store :=
  match h with
  | ForHeader _ _ _ =>
      let i := match k with 0 => 0 | S _ => S (fst s) end in
      (Some (Nat.ltb i 5), (i, snd s))
  | _ => (Some false, s)
  end.
Definition headerLeave (h : LoopHeader) (s : Store) : Store := s.
(** a second loop with the text of [forLoop], elsewhere in the file *)
Definition forLoop2 : Node :=
  ForStatement (Some (num "i = 0")) (Some (num "i < 5")) (Some (num "i++")) sumBody.

End Sample.

(** * Properties *)

(** ** Name resolution *)

Section NameResolver.

Variable getHash : string -> string.
Variable getText : Node -> string.

Local Abbreviation resolve := (getFunctionName getHash getText).

(** When the callee is a name or a property access, the resolved name
    does not depend on the node that holds the callee. *)
Lemma resolve_named_callee i callee ta args m :
  otherShape callee = false -> callee <> ThisKeyword ->
  resolve (CallExpression i callee ta args)
  = resolve (PropertyAccessExpression callee m).
Proof.
  intros Hshape Hthis.
  destruct callee; simpl in Hshape; try discriminate; try reflexivity.
  congruence.
Qed.

Lemma resolve_access_step e m m' :
  e <> ThisKeyword ->
  resolve (PropertyAccessExpression (PropertyAccessExpression e m) m')
  = (resolve (PropertyAccessExpression e m) ++ "." ++ text m)%string.
Proof. intros He. destruct e; simpl; congruence. Qed.

Lemma accessChain_snoc base ms m :
  accessChain base (ms ++ [m]) = PropertyAccessExpression (accessChain base ms) m.
Proof. unfold accessChain. now rewrite fold_left_app. Qed.

Lemma dotted_snoc p ms m :
  dotted p (ms ++ [m]) = (dotted p ms ++ "." ++ text m)%string.
Proof. unfold dotted. now rewrite fold_left_app. Qed.

Lemma accessChain_not_this e m ms :
  accessChain (PropertyAccessExpression e m) ms <> ThisKeyword.
Proof.
  destruct ms as [|m' ms] using rev_ind; [discriminate|].
  rewrite accessChain_snoc. discriminate.
Qed.

(** The name of a chain hanging from [e.m], read at the node one member
    further out. *)
Lemma resolve_chain e m ms m' :
  e <> ThisKeyword ->
  resolve (PropertyAccessExpression (accessChain (PropertyAccessExpression e m) ms) m')
  = dotted (resolve (PropertyAccessExpression e m)) (m :: ms).
Proof.
  intros He. revert m'.
  induction ms as [|x ms IH] using rev_ind; intros m'.
  - unfold accessChain, dotted. cbn [fold_left]. now apply resolve_access_step.
  - rewrite accessChain_snoc.
    change (m :: ms ++ [x]) with ((m :: ms) ++ [x]).
    rewrite dotted_snoc, <- (IH x).
    apply resolve_access_step, accessChain_not_this.
Qed.

(** C3. The name resolver, on a call expression and on every property
    access it reaches by its recursion (any node [node] whose
    [node.expression] is [callee]): the identifier's text for a bare
    identifier; "this." followed by the member for a property access on
    [this]; for any other property access [E.m], the name that the resolver
    gives to the node [E.m] itself, whose [expression] is [E] (this is the
    recursive call, and the same four cases apply to it), followed by "." and
    the member; otherwise "anonymous_" followed by the hash of the text of
    the node, so that two such nodes with the same text get the same name. *)
Theorem getFunctionName_cases node callee :
  calleeOf node = Some callee ->
  (forall x, callee = Identifier x -> resolve node = text x) /\
  (forall m, callee = PropertyAccessExpression ThisKeyword m ->
             resolve node = ("this." ++ text m)%string) /\
  (forall E m, callee = PropertyAccessExpression E m -> E <> ThisKeyword ->
               calleeOf callee = Some E /\
               resolve node = (resolve callee ++ "." ++ text m)%string) /\
  ((forall x, callee <> Identifier x) ->
   (forall E m, callee <> PropertyAccessExpression E m) ->
   resolve node = ("anonymous_" ++ getHash (getText node))%string /\
   forall node' callee',
     calleeOf node' = Some callee' ->
     (forall x, callee' <> Identifier x) ->
     (forall E m, callee' <> PropertyAccessExpression E m) ->
     getText node' = getText node ->
     resolve node' = resolve node).
Proof.
  intros Hc.
  assert (Hother : forall n c, calleeOf n = Some c ->
            (forall x, c <> Identifier x) ->
            (forall E m, c <> PropertyAccessExpression E m) ->
            resolve n = ("anonymous_" ++ getHash (getText n))%string).
  { intros n c Hn Hx Hp.
    destruct n; try discriminate Hn; simpl in Hn; injection Hn as ->;
      (destruct c; try reflexivity;
       [exfalso; eapply Hx; reflexivity | exfalso; eapply Hp; reflexivity]). }
  split; [|split; [|split]].
  - intros x ->. destruct node; try discriminate Hc;
      simpl in Hc; injection Hc as ->; reflexivity.
  - intros m ->. destruct node; try discriminate Hc;
      simpl in Hc; injection Hc as ->; reflexivity.
  - intros E m -> HE. split; [reflexivity|].
    destruct node; try discriminate Hc; simpl in Hc; injection Hc as ->;
      destruct E; simpl; congruence.
  - intros Hx Hp. split; [now apply (Hother node callee)|].
    intros node' callee' Hc' Hx' Hp' Htext.
    rewrite (Hother node callee), (Hother node' callee') by assumption.
    now rewrite Htext.
Qed.

(** C10, amended. For a callee [base.m1.....mk] whose base is neither a
    name, nor [this], nor a property access, the resolved name is
    "anonymous_" followed by the hash of the text of the innermost property
    access [base.m1] (the node the recursion stops at), followed by every
    member name of the chain. *)
Theorem getFunctionName_chain_on_other_base i base m1 ms ta args :
  otherShape base = true ->
  resolve (CallExpression i (accessChain base (m1 :: ms)) ta args)
  = dotted ("anonymous_" ++ getHash (getText (PropertyAccessExpression base m1)))
           (m1 :: ms).
Proof.
  intros Hbase. change (accessChain base (m1 :: ms))
    with (accessChain (PropertyAccessExpression base m1) ms).
  assert (Hthis : base <> ThisKeyword) by (intros ->; discriminate).
  assert (Hinner : resolve (PropertyAccessExpression base m1)
                   = ("anonymous_" ++ getHash (getText (PropertyAccessExpression base m1)))%string).
  { destruct base; simpl in Hbase; try discriminate; reflexivity. }
  rewrite resolve_named_callee with (m := m1).
  - rewrite resolve_chain by assumption. now rewrite Hinner.
  - destruct ms as [|x ms] using rev_ind; [reflexivity|].
    now rewrite accessChain_snoc.
  - apply accessChain_not_this.
Qed.

End NameResolver.

(** ** Trees *)

Lemma occurrences_Block i ss b :
  occurrences i (Block ss b) = occurrences_list i ss.
Proof. induction ss as [|x ss IH]; simpl in *; [reflexivity | now rewrite IH]. Qed.

Lemma occurrences_list_app i l1 l2 :
  occurrences_list i (l1 ++ l2) = occurrences_list i l1 + occurrences_list i l2.
Proof. induction l1 as [|x l1 IH]; simpl; [reflexivity | rewrite IH; lia]. Qed.

Lemma occurrences_consoleLogStatement i j msg :
  i <> j -> occurrences i (consoleLogStatement j msg) = 0.
Proof. intros H. simpl. now destruct (Pos.eqb_spec i j). Qed.

Lemma occurrences_iife i j ss :
  i <> j -> occurrences i (iife j ss) = occurrences_list i ss.
Proof.
  intros H. unfold iife.
  change (occurrences i (CallExpression j
            (ParenthesizedExpression (ArrowFunction None None [] None (Block ss true)))
            None []))
    with (if Pos.eqb i j then 1 else occurrences i (Block ss true) + 0 + 0).
  destruct (Pos.eqb_spec i j); [contradiction|].
  rewrite occurrences_Block. lia.
Qed.

Lemma size_Block_In x ss b : In x ss -> size x < size (Block ss b).
Proof.
  induction ss as [|y ss IH]; intros Hin; [destruct Hin|].
  destruct Hin as [-> | Hin].
  - simpl. lia.
  - specialize (IH Hin). simpl in *. lia.
Qed.

(** A wrapper is never the node it wraps. *)
Lemma iife_neq j ss init name :
  In (constStatement name init) ss -> iife j ss <> init.
Proof.
  intros Hin Heq. apply (size_Block_In _ _ true) in Hin.
  assert (size init < size (constStatement name init)) by (simpl; lia).
  assert (size (Block ss true) < size (iife j ss)) by (simpl; lia).
  rewrite Heq in *. lia.
Qed.

(** ** The state *)

Lemma nameFlag_true w name :
  nameFlag w name = true <-> isInstrumented w !! name = Some true.
Proof.
  unfold nameFlag. destruct (isInstrumented w !! name) as [[|]|]; split; congruence.
Qed.

Lemma hasMarker_true w i callee ta args :
  hasMarker w (CallExpression i callee ta args) = true <-> i ∈ marked w.
Proof. simpl. apply bool_decide_eq_true. Qed.

(** The test at the head of [_instrumentCall]. *)
Lemma skip_test w name i callee ta args :
  nameFlag w name && hasMarker w (CallExpression i callee ta args) = true
  <-> isInstrumented w !! name = Some true /\ i ∈ marked w.
Proof. now rewrite andb_true_iff, nameFlag_true, hasMarker_true. Qed.

Lemma notExcluded_false name l :
  notExcluded name l = false
  <-> exists e, In e l /\ (name = e \/ startsWith name (e ++ ".") = true).
Proof.
  induction l as [|x l IH]; simpl.
  - split; [discriminate | intros (e & [] & _)].
  - destruct (String.eqb_spec name x) as [->|Hne]; simpl.
    + split; [|reflexivity]. intros _. exists x. auto.
    + destruct (startsWith name (x ++ ".")) eqn:Hp.
      * split; [|reflexivity]. intros _. exists x. auto.
      * rewrite IH. split.
        -- intros (e & He & Hm). exists e. auto.
        -- intros (e & [<- | He] & Hm); [|exists e; auto].
           destruct Hm as [Hm | Hm]; congruence.
Qed.

Lemma skip_decision (w : World) (name : string) (i : positive) :
  {isInstrumented w !! name = Some true /\ i ∈ marked w}
  + {~ (isInstrumented w !! name = Some true /\ i ∈ marked w)}.
Proof.
  destruct (decide (isInstrumented w !! name = Some true)) as [Hf|Hf];
    destruct (decide (i ∈ marked w)) as [Hm|Hm]; tauto.
Qed.

Section Instrumentor.

Variable getHash : string -> string.
Variable getText : Node -> string.
Variable createFunctionData : string -> Fac Node.
Variable createIncrementCallCount : string -> Fac Node.
Variable createBeginFunctionLog : Ident -> Fac Node.
Variable createEndFunctionLog : string -> Ident -> Ident -> Fac (list Node).
Variable createLoopData : string -> Fac Node.
Variable createIncrementIteration : string -> Fac Node.
Variable createInitStmt : Fac (list Node).

Local Abbreviation resolve := (getFunctionName getHash getText).
Local Abbreviation shouldInstrument := (shouldInstrumentCall getHash getText).
Local Abbreviation instrumentCall :=
  (_instrumentCall getHash getText createFunctionData createIncrementCallCount
                   createBeginFunctionLog createEndFunctionLog).
Local Abbreviation instrumentLoop :=
  (_instrumentLoop getHash getText createLoopData createIncrementIteration).
Local Abbreviation instrument :=
  (instrumentFunction getHash getText createFunctionData createIncrementCallCount
     createBeginFunctionLog createEndFunctionLog createLoopData
     createIncrementIteration createInitStmt).
Local Abbreviation reaches :=
  (visits getHash getText createFunctionData createIncrementCallCount
     createBeginFunctionLog createEndFunctionLog createLoopData
     createIncrementIteration createInitStmt).

Ltac run :=
  unfold mbind, M_bind, Fac_bind, mret, M_ret, Fac_ret, getWorld, liftF,
    setInstrumented, setMarker, consoleLog, createConsoleLogStatement,
    createUniqueName, createCallExpression;
  cbn [fst snd factory isInstrumented marked console nextNodeId
       nextAutoGenerateId text].

(** *** One call of [_instrumentCall] *)

Lemma instrumentCall_skips i callee ta args w :
  let node := CallExpression i callee ta args in
  isInstrumented w !! resolve node = Some true -> i ∈ marked w ->
  instrumentCall node w = (node, w).
Proof.
  intros node Hflag Hmark. unfold _instrumentCall. run.
  assert (H : nameFlag w (resolve node) && hasMarker w node = true)
    by now apply skip_test.
  fold node. now rewrite H.
Qed.

(** The replacement and the world after a call that is not skipped, with
    the statements of [Creator] named. *)
Lemma instrumentCall_wraps i callee ta args w :
  let node := CallExpression i callee ta args in
  let name := resolve node in
  let fmt := replaceAll "." "_" name in
  let n0 := nextNodeId (factory w) in
  let a0 := nextAutoGenerateId (factory w) in
  let resultVar := mkIdent "result" (Some a0) in
  let startVar := mkIdent ("__call_start_" ++ fmt) (Some (N.succ a0)) in
  let endVar := mkIdent ("__call_end_" ++ fmt) (Some (N.succ (N.succ a0))) in
  ~ (isInstrumented w !! name = Some true /\ i ∈ marked w) ->
  exists fd f1 ic f2 bl f3 el f4,
    createFunctionData name
      (mkFactory (Pos.succ (Pos.succ n0)) (N.succ (N.succ (N.succ a0)))) = (fd, f1) /\
    createIncrementCallCount name f1 = (ic, f2) /\
    createBeginFunctionLog startVar f2 = (bl, f3) /\
    createEndFunctionLog name startVar endVar f3 = (el, f4) /\
    instrumentCall node w
    = (iife (nextNodeId f4)
         ([consoleLogStatement n0 ("[PREF] begin call " ++ fmt);
           fd; ic; bl; constStatement resultVar node]
            ++ el
            ++ [consoleLogStatement (Pos.succ n0) ("[PREF] end call " ++ fmt);
                ReturnStatement (Some (Identifier resultVar))]),
       mkWorld (<[name := true]> (isInstrumented w)) ({[ i ]} ∪ marked w)
               (mkFactory (Pos.succ (nextNodeId f4)) (nextAutoGenerateId f4))
               (console w)).
Proof.
  intros node name fmt n0 a0 resultVar startVar endVar Hnot.
  assert (H : nameFlag w name && hasMarker w node = false).
  { destruct (nameFlag w name && hasMarker w node) eqn:E; [|reflexivity].
    apply skip_test in E. contradiction. }
  destruct (createFunctionData name
              (mkFactory (Pos.succ (Pos.succ n0)) (N.succ (N.succ (N.succ a0)))))
    as [fd f1] eqn:E1.
  destruct (createIncrementCallCount name f1) as [ic f2] eqn:E2.
  destruct (createBeginFunctionLog startVar f2) as [bl f3] eqn:E3.
  destruct (createEndFunctionLog name startVar endVar f3) as [el f4] eqn:E4.
  exists fd, f1, ic, f2, bl, f3, el, f4.
  repeat (split; [first [assumption | reflexivity]|]).
  subst node name fmt n0 a0 resultVar startVar endVar.
  unfold _instrumentCall. run. rewrite H. run.
  rewrite E1. run. rewrite E2. run. rewrite E3. run. rewrite E4. run.
  reflexivity.
Qed.

Lemma instrumentCall_returns_call i callee ta args w :
  isCallExpression (fst (instrumentCall (CallExpression i callee ta args) w)) = true.
Proof.
  destruct (skip_decision w (resolve (CallExpression i callee ta args)) i)
    as [[Hf Hm]|Hnot].
  - now rewrite instrumentCall_skips.
  - destruct (instrumentCall_wraps i callee ta args w Hnot)
      as (? & ? & ? & ? & ? & ? & ? & ? & _ & _ & _ & _ & E).
    now rewrite E.
Qed.

Lemma grows_refl w : grows w w.
Proof. split; [auto | set_solver]. Qed.

Lemma grows_trans w1 w2 w3 : grows w1 w2 -> grows w2 w3 -> grows w1 w3.
Proof. intros [F1 M1] [F2 M2]. split; [auto | set_solver]. Qed.

Lemma liftF_grows {A} (c : Fac A) w : grows w (snd (liftF c w)).
Proof. unfold liftF. destruct (c (factory w)). split; cbn; [auto | set_solver]. Qed.

Lemma instrumentCall_grows i callee ta args w :
  grows w (snd (instrumentCall (CallExpression i callee ta args) w)).
Proof.
  destruct (skip_decision w (resolve (CallExpression i callee ta args)) i)
    as [[Hf Hm]|Hnot].
  - rewrite instrumentCall_skips by assumption. apply grows_refl.
  - destruct (instrumentCall_wraps i callee ta args w Hnot)
      as (? & ? & ? & ? & ? & ? & ? & ? & _ & _ & _ & _ & E).
    rewrite E. split; cbn [snd isInstrumented marked]; [|set_solver].
    intros k Hk.
    destruct (decide (resolve (CallExpression i callee ta args) = k)) as [<-|Hne].
    + apply lookup_insert_eq.
    + now rewrite lookup_insert_ne.
Qed.

Lemma shouldInstrument_fst node w :
  fst (shouldInstrument node w) = notExcluded (resolve node) EXCLUDED_FUNCTIONS.
Proof. reflexivity. Qed.

(** [instrumentFunction] on a call node: the exclusion filter, then
    [_instrumentCall]; the loop test never applies to the result. *)
Lemma instrument_call i callee ta args w :
  let node := CallExpression i callee ta args in
  instrument node w
  = if notExcluded (resolve node) EXCLUDED_FUNCTIONS
    then instrumentCall node (snd (shouldInstrument node w))
    else (node, snd (shouldInstrument node w)).
Proof.
  cbv zeta. unfold instrumentFunction. run. cbn [isCallExpression].
  pose proof (shouldInstrument_fst (CallExpression i callee ta args) w) as Hb.
  destruct (shouldInstrument _ w) as [b w1]. cbn [fst snd] in *. subst b.
  destruct (notExcluded _ EXCLUDED_FUNCTIONS); [|reflexivity].
  pose proof (instrumentCall_returns_call i callee ta args w1) as Hc.
  destruct (instrumentCall _ w1) as [r w2]. cbn [fst] in Hc.
  destruct r; try discriminate Hc. reflexivity.
Qed.

Lemma shouldInstrument_grows node w : grows w (snd (shouldInstrument node w)).
Proof. unfold shouldInstrumentCall. run. split; cbn; [auto | set_solver]. Qed.

Lemma instrument_grows n w : grows w (snd (instrument n w)).
Proof.
  destruct n;
    try (unfold instrumentFunction; run; cbn [isCallExpression isForStatement
           isForOfStatement isForInStatement orb];
         first [apply grows_refl | apply liftF_grows]).
  - rewrite instrument_call.
    destruct (notExcluded _ _).
    + eapply grows_trans; [apply shouldInstrument_grows | apply instrumentCall_grows].
    + apply shouldInstrument_grows.
  - unfold instrumentFunction. run.
    pose proof (liftF_grows createInitStmt w) as H. unfold liftF in H.
    now destruct (createInitStmt (factory w)).
Qed.

Lemma reaches_grows w w' : reaches w w' -> grows w w'.
Proof.
  induction 1 as [w | w n w' _ IH]; [apply grows_refl|].
  eapply grows_trans; [apply instrument_grows | exact IH].
Qed.

(** C1. The replacement of an instrumented call is an immediately
    invoked arrow function without parameters whose block holds, in this
    order: the begin-call trace (the resolved name with every "." turned
    into "_"), the call-site registration, the call-count increment, the
    timing start, the [const] declaration that binds the original call node
    to the name "result" generated with the factory's next id, the
    timing-end statements, the end-call trace and the [return] of that
    name.  When the builders of [Creator] create their own nodes, the
    original call node occurs exactly once in the replacement. *)
Theorem instrumentCall_replacement i callee ta args w :
  let node := CallExpression i callee ta args in
  let name := resolve node in
  let fmt := replaceAll "." "_" name in
  let a0 := nextAutoGenerateId (factory w) in
  let resultVar := mkIdent "result" (Some a0) in
  let startVar := mkIdent ("__call_start_" ++ fmt) (Some (N.succ a0)) in
  let endVar := mkIdent ("__call_end_" ++ fmt) (Some (N.succ (N.succ a0))) in
  ~ (isInstrumented w !! name = Some true /\ i ∈ marked w) ->
  exists j jb ja fd ic bl el f1 f2 f3 f4,
    fst (instrumentCall node w)
    = iife j
        ([consoleLogStatement jb ("[PREF] begin call " ++ fmt);
          fd; ic; bl; constStatement resultVar node]
           ++ el
           ++ [consoleLogStatement ja ("[PREF] end call " ++ fmt);
               ReturnStatement (Some (Identifier resultVar))]) /\
    fd = fst (createFunctionData name f1) /\
    ic = fst (createIncrementCallCount name f2) /\
    bl = fst (createBeginFunctionLog startVar f3) /\
    el = fst (createEndFunctionLog name startVar endVar f4) /\
    ((i < nextNodeId (factory w))%positive ->
     (forall n, buildsNewNodes occurrences (createFunctionData n)) ->
     (forall n, buildsNewNodes occurrences (createIncrementCallCount n)) ->
     (forall v, buildsNewNodes occurrences (createBeginFunctionLog v)) ->
     (forall n v v', buildsNewNodes occurrences_list (createEndFunctionLog n v v')) ->
     occurrences i (fst (instrumentCall node w)) = 1).
Proof.
  intros node name fmt a0 resultVar startVar endVar Hnot.
  destruct (instrumentCall_wraps i callee ta args w Hnot)
    as (fd & f1 & ic & f2 & bl & f3 & el & f4 & E1 & E2 & E3 & E4 & E).
  fold node name fmt a0 resultVar startVar endVar in E, E1, E2, E3, E4.
  rewrite E. cbn [fst].
  eexists _, _, _, fd, ic, bl, el, _, f1, f2, f3.
  split; [reflexivity|].
  split; [now rewrite E1|]. split; [now rewrite E2|].
  split; [now rewrite E3|]. split; [now rewrite E4|].
  intros Hi Hfd Hic Hbl Hel.
  destruct (Hfd name (mkFactory (Pos.succ (Pos.succ (nextNodeId (factory w))))
                                (N.succ (N.succ (N.succ a0))))) as [L1 O1].
  destruct (Hic name f1) as [L2 O2].
  destruct (Hbl startVar f2) as [L3 O3].
  destruct (Hel name startVar endVar f3) as [L4 O4].
  rewrite E1 in L1, O1. rewrite E2 in L2, O2.
  rewrite E3 in L3, O3. rewrite E4 in L4, O4.
  cbn [fst snd nextNodeId] in *.
  rewrite occurrences_iife by lia.
  rewrite !occurrences_list_app.
  cbn [occurrences_list fold_right].
  rewrite !occurrences_consoleLogStatement by lia.
  rewrite O1, O2, O3, O4 by lia.
  unfold node. simpl. rewrite Pos.eqb_refl. reflexivity.
Qed.

(** C2. [_instrumentCall] returns the call node unchanged exactly when
    the per-name flag of its resolved name is set and the node carries the
    marker; in that case nothing changes at all.  A call node whose name is
    flagged but that carries no marker is still wrapped, and it carries the
    marker afterwards. *)
Theorem instrumentCall_skip_iff i callee ta args w :
  let node := CallExpression i callee ta args in
  let name := resolve node in
  (fst (instrumentCall node w) = node
   <-> isInstrumented w !! name = Some true /\ i ∈ marked w) /\
  (isInstrumented w !! name = Some true -> i ∈ marked w ->
   instrumentCall node w = (node, w)) /\
  (isInstrumented w !! name = Some true -> i ∉ marked w ->
   isIife (fst (instrumentCall node w)) = true /\
   fst (instrumentCall node w) <> node /\
   i ∈ marked (snd (instrumentCall node w))).
Proof.
  intros node name.
  assert (Hwrap : ~ (isInstrumented w !! name = Some true /\ i ∈ marked w) ->
                  isIife (fst (instrumentCall node w)) = true /\
                  fst (instrumentCall node w) <> node /\
                  i ∈ marked (snd (instrumentCall node w))).
  { intros Hnot.
    destruct (instrumentCall_wraps i callee ta args w Hnot)
      as (fd & f1 & ic & f2 & bl & f3 & el & f4 & _ & _ & _ & _ & E).
    fold node name in E. rewrite E. cbn [fst snd marked].
    split; [reflexivity|].
    split; [|apply elem_of_union_l, elem_of_singleton; reflexivity].
    eapply iife_neq. apply in_or_app. left. do 4 right. left. reflexivity. }
  split; [|split].
  - split.
    + intros Heq. destruct (skip_decision w name i) as [H|H]; [exact H|].
      destruct (Hwrap H) as (_ & Hne & _). contradiction.
    + intros [Hf Hm]. unfold node. now rewrite instrumentCall_skips.
  - intros Hf Hm. now apply instrumentCall_skips.
  - intros Hf Hm. apply Hwrap. intros [_ H]. contradiction.
Qed.

(** C9. When [_instrumentCall] wraps a call, the world it leaves has
    the flag of the resolved name set and the marker on the call node, and
    the replacement holds that same node as the initializer of the result
    variable.  From then on, in every world the traversal can reach,
    visiting the node again returns it unchanged: a node is wrapped at most
    once. *)
Theorem wrapped_node_is_never_wrapped_again i callee ta args w :
  let node := CallExpression i callee ta args in
  let name := resolve node in
  let w' := snd (instrumentCall node w) in
  ~ (isInstrumented w !! name = Some true /\ i ∈ marked w) ->
  isInstrumented w' !! name = Some true /\
  i ∈ marked w' /\
  (exists j before resultVar after,
      fst (instrumentCall node w)
      = iife j (before ++ [constStatement resultVar node] ++ after)) /\
  instrumentCall node w' = (node, w') /\
  forall w'', reaches w' w'' ->
    instrumentCall node w'' = (node, w'') /\
    fst (instrument node w'') = node.
Proof.
  intros node name w' Hnot.
  destruct (instrumentCall_wraps i callee ta args w Hnot)
    as (fd & f1 & ic & f2 & bl & f3 & el & f4 & _ & _ & _ & _ & E).
  fold node name in E.
  assert (Hf : isInstrumented w' !! name = Some true).
  { unfold w'. rewrite E. cbn [snd isInstrumented]. apply lookup_insert_eq. }
  assert (Hm : i ∈ marked w').
  { unfold w'. rewrite E. cbn [snd marked]. set_solver. }
  split; [exact Hf|]. split; [exact Hm|]. split; [|split].
  - rewrite E. cbn [fst].
    eexists _, [_; _; _; _], _, (_ ++ [_; _]). reflexivity.
  - now apply instrumentCall_skips.
  - intros w'' Hreach. apply reaches_grows in Hreach as [HF HM].
    assert (Hf'' : isInstrumented w'' !! name = Some true) by auto.
    assert (Hm'' : i ∈ marked w'') by set_solver.
    split; [now apply instrumentCall_skips|].
    unfold node. rewrite instrument_call. fold node.
    destruct (notExcluded _ _); [|reflexivity].
    unfold node. rewrite instrumentCall_skips; [reflexivity | exact Hf'' | exact Hm''].
Qed.

(** C4. [shouldInstrumentCall] answers [false] exactly when the
    resolved name is one of the excluded names or starts with one of them
    followed by ".".  A call that resolves to "console.log" is handed back
    unchanged by [instrumentFunction]; a call that resolves to
    "someLogger.log" passes the filter and is wrapped. *)
Theorem shouldInstrumentCall_exclusion i callee ta args w :
  let node := CallExpression i callee ta args in
  let name := resolve node in
  (fst (shouldInstrument node w) = false
   <-> exists e, In e EXCLUDED_FUNCTIONS /\
                 (name = e \/ startsWith name (e ++ ".") = true)) /\
  (name = "console.log" ->
   fst (shouldInstrument node w) = false /\ fst (instrument node w) = node) /\
  (name = "someLogger.log" ->
   fst (shouldInstrument node w) = true /\
   (~ (isInstrumented w !! name = Some true /\ i ∈ marked w) ->
    isIife (fst (instrument node w)) = true)).
Proof.
  intros node name. split; [|split].
  - rewrite shouldInstrument_fst. apply notExcluded_false.
  - intros Hn. unfold node. rewrite instrument_call, shouldInstrument_fst.
    fold node name. rewrite Hn. split; reflexivity.
  - intros Hn. unfold node. rewrite instrument_call, shouldInstrument_fst.
    fold node name. rewrite Hn. split; [reflexivity|].
    change (notExcluded "someLogger.log" EXCLUDED_FUNCTIONS) with true.
    cbv iota. intros Hnot.
    destruct (instrumentCall_wraps i callee ta args (snd (shouldInstrument node w)))
      as (fd & f1 & ic & f2 & bl & f3 & el & f4 & _ & _ & _ & _ & E).
    { fold node name. rewrite Hn. exact Hnot. }
    fold node in E. rewrite E. reflexivity.
Qed.

(** *** Loops and compilation units *)

(** What [_instrumentLoop] returns for a loop of one of the three kinds:
    the two statements of [Creator] and the factory they leave. *)
Lemma instrumentLoop_run node f :
  isInstrumentedLoopKind node = true ->
  exists key f1 ld f2 inc f3,
    getNodeUniqueName getHash getText node f = (key, f1) /\
    createLoopData key (mkFactory (nextNodeId f1) (N.succ (nextAutoGenerateId f1)))
    = (ld, f2) /\
    createIncrementIteration key f2 = (inc, f3) /\
    instrumentLoop node f
    = (match node with
       | ForStatement i c u b => ForStatement i c u (Block [ld; inc; b] true)
       | ForOfStatement a i e b => ForOfStatement a i e (Block [ld; inc; b] true)
       | ForInStatement i e b => ForInStatement i e (Block [ld; inc; b] true)
       | _ => node
       end, f3).
Proof.
  intros Hk.
  destruct (getNodeUniqueName getHash getText node f) as [key f1] eqn:E0.
  destruct (createLoopData key (mkFactory (nextNodeId f1) (N.succ (nextAutoGenerateId f1))))
    as [ld f2] eqn:E1.
  destruct (createIncrementIteration key f2) as [inc f3] eqn:E2.
  exists key, f1, ld, f2, inc, f3.
  repeat (split; [first [assumption | reflexivity]|]).
  unfold _instrumentLoop. run. rewrite E0. run. rewrite E1, E2.
  destruct node; try discriminate Hk; reflexivity.
Qed.

Lemma getNodeUniqueName_key node f :
  fst (getNodeUniqueName getHash getText node f)
  = match node with
    | ForStatement _ _ _ _ => ("for_" ++ getHash (getText node))%string
    | ForOfStatement _ _ _ _ => ("forof_" ++ getHash (getText node))%string
    | ForInStatement _ _ _ => ("forin_" ++ getHash (getText node))%string
    | _ => ""%string
    end.
Proof. destruct node; reflexivity. Qed.

(** The whole result of [_instrumentLoop] on a loop of the three kinds:
    two generated names are drawn, then the two statements of [Creator] are
    built one after the other, and the loop is put together again around
    the block of these two statements and the old body. *)
Lemma instrumentLoop_exact node f :
  isInstrumentedLoopKind node = true ->
  let key := fst (getNodeUniqueName getHash getText node f) in
  let f1 := mkFactory (nextNodeId f) (N.succ (N.succ (nextAutoGenerateId f))) in
  let ld := createLoopData key f1 in
  let inc := createIncrementIteration key (snd ld) in
  instrumentLoop node f
  = (match node with
     | ForStatement i c u b => ForStatement i c u (Block [fst ld; fst inc; b] true)
     | ForOfStatement a i e b => ForOfStatement a i e (Block [fst ld; fst inc; b] true)
     | ForInStatement i e b => ForInStatement i e (Block [fst ld; fst inc; b] true)
     | _ => node
     end, snd inc).
Proof.
  intros Hk.
  destruct node; try discriminate Hk;
    cbv zeta; unfold _instrumentLoop, getNodeUniqueName; run;
    cbn [isForStatement isForOfStatement isForInStatement]; run;
    (destruct (createLoopData _ _) as [ld f2]; cbn [fst snd];
     destruct (createIncrementIteration _ _) as [inc f3]; reflexivity).
Qed.

(** X15. For a [for], [for...of] or [for...in] loop, [_instrumentLoop]
    returns a loop of the same kind with the same header parts, whose body
    is the block of the loop registration, the iteration increment and the
    original body statement, in this order.  Both statements of [Creator]
    are keyed by the loop kind and the hash of the text of the loop; they
    are built after two generated names have been drawn, the registration
    first. *)
Theorem instrumentLoop_keeps_header f :
  let f1 := mkFactory (nextNodeId f) (N.succ (N.succ (nextAutoGenerateId f))) in
  (forall i c u b,
      let node := ForStatement i c u b in
      let key := ("for_" ++ getHash (getText node))%string in
      let ld := createLoopData key f1 in
      let inc := createIncrementIteration key (snd ld) in
      instrumentLoop node f
      = (ForStatement i c u (Block [fst ld; fst inc; b] true), snd inc)) /\
  (forall a i e b,
      let node := ForOfStatement a i e b in
      let key := ("forof_" ++ getHash (getText node))%string in
      let ld := createLoopData key f1 in
      let inc := createIncrementIteration key (snd ld) in
      instrumentLoop node f
      = (ForOfStatement a i e (Block [fst ld; fst inc; b] true), snd inc)) /\
  (forall i e b,
      let node := ForInStatement i e b in
      let key := ("forin_" ++ getHash (getText node))%string in
      let ld := createLoopData key f1 in
      let inc := createIncrementIteration key (snd ld) in
      instrumentLoop node f
      = (ForInStatement i e (Block [fst ld; fst inc; b] true), snd inc)).
Proof.
  intros f1. split; [|split]; intros; subst node;
    rewrite instrumentLoop_exact by reflexivity; reflexivity.
Qed.

(** C7. Nothing guards a loop against a second instrumentation: for a
    loop of one of the three kinds whose body already is a wrapping block
    (an instrumented loop that the parser hands over again),
    [_instrumentLoop] keeps the kind and the header and puts that block, as
    it is, behind a new registration and a new increment inside a new
    block. *)
Theorem instrumentLoop_wraps_again f ld0 inc0 b :
  let wrapped := Block [ld0; inc0; b] true in
  let f1 := mkFactory (nextNodeId f) (N.succ (N.succ (nextAutoGenerateId f))) in
  (forall i c u,
      let node := ForStatement i c u wrapped in
      let key := ("for_" ++ getHash (getText node))%string in
      let ld := createLoopData key f1 in
      let inc := createIncrementIteration key (snd ld) in
      instrumentLoop node f
      = (ForStatement i c u (Block [fst ld; fst inc; Block [ld0; inc0; b] true] true),
         snd inc)) /\
  (forall a i e,
      let node := ForOfStatement a i e wrapped in
      let key := ("forof_" ++ getHash (getText node))%string in
      let ld := createLoopData key f1 in
      let inc := createIncrementIteration key (snd ld) in
      instrumentLoop node f
      = (ForOfStatement a i e (Block [fst ld; fst inc; Block [ld0; inc0; b] true] true),
         snd inc)) /\
  (forall i e,
      let node := ForInStatement i e wrapped in
      let key := ("forin_" ++ getHash (getText node))%string in
      let ld := createLoopData key f1 in
      let inc := createIncrementIteration key (snd ld) in
      instrumentLoop node f
      = (ForInStatement i e (Block [fst ld; fst inc; Block [ld0; inc0; b] true] true),
         snd inc)).
Proof.
  intros wrapped f1. split; [|split]; intros; subst node wrapped;
    rewrite instrumentLoop_exact by reflexivity; reflexivity.
Qed.

(** C6. On a source file, [instrumentFunction] returns the file with
    the initialization sequence of [Creator] in front of the statements of
    the file, which follow unchanged and in their order; the sequence does
    not depend on these statements. *)
Theorem instrumentFunction_sourceFile statements w :
  fst (instrument (SourceFile statements) w)
  = SourceFile (fst (createInitStmt (factory w)) ++ statements).
Proof.
  unfold instrumentFunction. run.
  now destruct (createInitStmt (factory w)).
Qed.

(** C8. A node that is neither a source file, nor a call that passes
    the exclusion filter, nor a loop of one of the three kinds comes back
    from [instrumentFunction] unchanged. *)
Theorem instrumentFunction_passes_through node w :
  isSourceFile node = false ->
  (isCallExpression node = true -> fst (shouldInstrument node w) = false) ->
  isInstrumentedLoopKind node = false ->
  fst (instrument node w) = node.
Proof.
  intros Hs Hc Hl.
  destruct node; try discriminate Hs; try discriminate Hl; try reflexivity.
  rewrite instrument_call. rewrite shouldInstrument_fst in Hc.
  now rewrite (Hc eq_refl).
Qed.

End Instrumentor.

(** ** The definitions at work on the sample host *)

Ltac new_nodes :=
  intros f; split;
  [ simpl; lia
  | intros i Hi; simpl in *;
    repeat match goal with
           | |- context [Pos.eqb ?a ?b] => destruct (Pos.eqb_spec a b); [lia|]
           end;
    reflexivity ].

Lemma sample_createFunctionData_new n :
  buildsNewNodes occurrences (Sample.createFunctionData n).
Proof. new_nodes. Qed.

Lemma sample_createIncrementCallCount_new n :
  buildsNewNodes occurrences (Sample.createIncrementCallCount n).
Proof. new_nodes. Qed.

Lemma sample_createBeginFunctionLog_new v :
  buildsNewNodes occurrences (Sample.createBeginFunctionLog v).
Proof. new_nodes. Qed.

Lemma sample_createEndFunctionLog_new n v v' :
  buildsNewNodes occurrences_list (Sample.createEndFunctionLog n v v').
Proof. new_nodes. Qed.

Lemma sample_world0_unmarked name i :
  ~ (isInstrumented Sample.world0 !! name = Some true /\ i ∈ marked Sample.world0).
Proof. intros [_ H]. simpl in H. set_solver. Qed.

(** [add(1, multiply(2, 3))] in a fresh world: the call node occurs once in
    its replacement. *)
Lemma instrumentCall_replacement_witness :
  occurrences 1 (fst (Sample._instrumentCall Sample.addCall Sample.world0)) = 1.
Proof.
  destruct (instrumentCall_replacement Sample.getHash Sample.getText
              Sample.createFunctionData Sample.createIncrementCallCount
              Sample.createBeginFunctionLog Sample.createEndFunctionLog
              1%positive (Sample.ident "add") None
              [Sample.num "1"; Sample.multiplyCall] Sample.world0
              (sample_world0_unmarked _ _))
    as (j & jb & ja & fd & ic & bl & el & f1 & f2 & f3 & f4 & _ & _ & _ & _ & _ & Hocc).
  apply Hocc.
  - simpl. lia.
  - apply sample_createFunctionData_new.
  - apply sample_createIncrementCallCount_new.
  - apply sample_createBeginFunctionLog_new.
  - apply sample_createEndFunctionLog_new.
Defined.

(** The cases on sample calls; the name of [a.b.c()] is put together from
    the cases at the call, at [a.b.c] and at [a.b]. *)
Lemma getFunctionName_cases_witness :
  Sample.getFunctionName Sample.addCall = "add"%string /\
  Sample.getFunctionName Sample.thisRunCall = "this.run"%string /\
  Sample.getFunctionName Sample.abcCall = "a.b.c"%string /\
  Sample.getFunctionName Sample.parenCall
  = ("anonymous_" ++ Sample.getHash "(g)(1)")%string.
Proof.
  split; [|split; [|split]].
  - destruct (getFunctionName_cases Sample.getHash Sample.getText
                Sample.addCall (Sample.ident "add") eq_refl) as (H & _).
    exact (H _ eq_refl).
  - destruct (getFunctionName_cases Sample.getHash Sample.getText
                Sample.thisRunCall
                (PropertyAccessExpression ThisKeyword (createIdentifier "run"))
                eq_refl) as (_ & H & _).
    exact (H _ eq_refl).
  - pose (ab := PropertyAccessExpression (Sample.ident "a") (createIdentifier "b")).
    pose (abc := PropertyAccessExpression ab (createIdentifier "c")).
    destruct (getFunctionName_cases Sample.getHash Sample.getText
                Sample.abcCall abc eq_refl) as (_ & _ & Hcall & _).
    destruct (getFunctionName_cases Sample.getHash Sample.getText
                abc ab eq_refl) as (_ & _ & Habc & _).
    destruct (getFunctionName_cases Sample.getHash Sample.getText
                ab (Sample.ident "a") eq_refl) as (Hab & _).
    destruct (Hcall ab (createIdentifier "c") eq_refl) as [_ E1]; [discriminate|].
    destruct (Habc (Sample.ident "a") (createIdentifier "b") eq_refl) as [_ E2];
      [discriminate|].
    pose proof (Hab (createIdentifier "a") eq_refl) as E3.
    unfold Sample.getFunctionName.
    rewrite E1, E2, E3. reflexivity.
  - destruct (getFunctionName_cases Sample.getHash Sample.getText
                Sample.parenCall (ParenthesizedExpression (Sample.ident "g"))
                eq_refl) as (_ & _ & _ & H).
    destruct H as [H _]; [intros x; discriminate | intros E m; discriminate | exact H].
Defined.

(** [f().m(x)]: the hash is that of the text of [f().m]. *)
Lemma getFunctionName_chain_on_other_base_witness :
  Sample.getFunctionName Sample.fmCall
  = ("anonymous_" ++ Sample.getHash "f().m" ++ ".m")%string.
Proof.
  apply (getFunctionName_chain_on_other_base Sample.getHash Sample.getText
           8%positive Sample.fCall (createIdentifier "m") [] None [Sample.ident "x"]).
  reflexivity.
Defined.

(** C10 as it is worded takes the hash over the text of the base [f()];
    on [f().m(x)] the resolver does not. *)
Lemma getFunctionName_hash_not_of_base :
  Sample.getText Sample.fCall = "f()"%string /\
  Sample.getFunctionName Sample.fmCall
  <> ("anonymous_" ++ Sample.getHash (Sample.getText Sample.fCall) ++ ".m")%string.
Proof. split; [reflexivity | vm_compute; discriminate]. Qed.

Lemma sample_world1_flag : isInstrumented Sample.world1 !! "add"%string = Some true.
Proof. apply lookup_singleton_eq. Qed.

Lemma sample_world1_marker_1 : 1%positive ∈ marked Sample.world1.
Proof. simpl. set_solver. Qed.

Lemma sample_world1_marker_3 : 3%positive ∉ marked Sample.world1.
Proof. simpl. set_solver. Qed.

(** With "add" flagged and the marker on the first call only, the first
    call is skipped and the second one, [add(4, 5)], is wrapped and marked. *)
Lemma instrumentCall_skip_iff_witness :
  Sample._instrumentCall Sample.addCall Sample.world1 = (Sample.addCall, Sample.world1) /\
  isIife (fst (Sample._instrumentCall Sample.addCall2 Sample.world1)) = true /\
  3%positive ∈ marked (snd (Sample._instrumentCall Sample.addCall2 Sample.world1)).
Proof.
  pose proof (instrumentCall_skip_iff Sample.getHash Sample.getText
                Sample.createFunctionData Sample.createIncrementCallCount
                Sample.createBeginFunctionLog Sample.createEndFunctionLog
                1%positive (Sample.ident "add") None
                [Sample.num "1"; Sample.multiplyCall] Sample.world1) as H1.
  pose proof (instrumentCall_skip_iff Sample.getHash Sample.getText
                Sample.createFunctionData Sample.createIncrementCallCount
                Sample.createBeginFunctionLog Sample.createEndFunctionLog
                3%positive (Sample.ident "add") None
                [Sample.num "4"; Sample.num "5"] Sample.world1) as H3.
  cbv zeta in H1, H3.
  destruct H1 as (_ & Hskip & _). destruct H3 as (_ & _ & Hwrap).
  split.
  - exact (Hskip sample_world1_flag sample_world1_marker_1).
  - destruct (Hwrap sample_world1_flag sample_world1_marker_3) as (Hi & _ & Hm).
    exact (conj Hi Hm).
Defined.

(** Once wrapped in the fresh world, [add(1, multiply(2, 3))] is handed
    back unchanged, also after [multiply(2, 3)] has been visited. *)
Lemma wrapped_node_is_never_wrapped_again_witness :
  let w' := snd (Sample._instrumentCall Sample.addCall Sample.world0) in
  let w'' := snd (Sample.instrumentFunction Sample.multiplyCall w') in
  Sample._instrumentCall Sample.addCall w' = (Sample.addCall, w') /\
  fst (Sample.instrumentFunction Sample.addCall w'') = Sample.addCall.
Proof.
  intros w' w''.
  pose proof (wrapped_node_is_never_wrapped_again Sample.getHash Sample.getText
                Sample.createFunctionData Sample.createIncrementCallCount
                Sample.createBeginFunctionLog Sample.createEndFunctionLog
                Sample.createLoopData Sample.createIncrementIteration
                Sample.createInitStmt
                1%positive (Sample.ident "add") None
                [Sample.num "1"; Sample.multiplyCall] Sample.world0
                (sample_world0_unmarked _ _)) as H.
  cbv zeta in H. destruct H as (_ & _ & _ & Hagain & Hlater).
  split; [exact Hagain|].
  apply (Hlater w'').
  eapply visits_step. apply visits_refl.
Defined.

(** [console.log('hi')] is handed back; [someLogger.log('hi')] is wrapped. *)
Lemma shouldInstrumentCall_exclusion_witness :
  fst (Sample.instrumentFunction Sample.consoleLogCall Sample.world0)
  = Sample.consoleLogCall /\
  isIife (fst (Sample.instrumentFunction Sample.someLoggerCall Sample.world0)) = true.
Proof.
  pose proof (shouldInstrumentCall_exclusion Sample.getHash Sample.getText
                Sample.createFunctionData Sample.createIncrementCallCount
                Sample.createBeginFunctionLog Sample.createEndFunctionLog
                Sample.createLoopData Sample.createIncrementIteration
                Sample.createInitStmt
                4%positive
                (PropertyAccessExpression (Sample.ident "console") (createIdentifier "log"))
                None [StringLiteral "hi"] Sample.world0) as Hc.
  pose proof (shouldInstrumentCall_exclusion Sample.getHash Sample.getText
                Sample.createFunctionData Sample.createIncrementCallCount
                Sample.createBeginFunctionLog Sample.createEndFunctionLog
                Sample.createLoopData Sample.createIncrementIteration
                Sample.createInitStmt
                5%positive
                (PropertyAccessExpression (Sample.ident "someLogger") (createIdentifier "log"))
                None [StringLiteral "hi"] Sample.world0) as Hs.
  cbv zeta in Hc, Hs.
  destruct Hc as (_ & Hc & _). destruct Hs as (_ & _ & Hs).
  split.
  - exact (proj2 (Hc eq_refl)).
  - exact (proj2 (Hs eq_refl) (sample_world0_unmarked _ _)).
Defined.

(** The instrumented [for] loop, read back by the parser, is wrapped once
    more: its body of three statements is the third statement of the new
    body. *)
Lemma instrumentLoop_wraps_again_witness :
  statement_of (fst (Sample._instrumentLoop Sample.wrappedForLoop (mkFactory 100 0)))
  = Some (Block [fst (Sample.createLoopData
                        ("for_" ++ Sample.getHash (Sample.getText Sample.wrappedForLoop))
                        (mkFactory 100 2));
                 fst (Sample.createIncrementIteration
                        ("for_" ++ Sample.getHash (Sample.getText Sample.wrappedForLoop))
                        (mkFactory 101 2));
                 Sample.wrappedBody] true).
Proof.
  pose proof (instrumentLoop_wraps_again Sample.getHash Sample.getText
                Sample.createLoopData Sample.createIncrementIteration
                (mkFactory 100 0)
                (ExpressionStatement
                   (CallExpression 20
                      (PropertyAccessExpression (Sample.ident "__perf")
                                                (createIdentifier "registerLoop"))
                      None [StringLiteral "k"]))
                (ExpressionStatement
                   (CallExpression 21
                      (PropertyAccessExpression (Sample.ident "__perf")
                                                (createIdentifier "incrementIteration"))
                      None [StringLiteral "k"]))
                Sample.sumBody) as H.
  cbv zeta in H. destruct H as (H & _).
  specialize (H (Some (Sample.num "i = 0")) (Some (Sample.num "i < 5"))
                (Some (Sample.num "i++"))).
  unfold Sample._instrumentLoop, Sample.wrappedForLoop, Sample.wrappedBody.
  rewrite H. reflexivity.
Defined.

(** A [while] loop and an excluded call pass through. *)
Lemma instrumentFunction_passes_through_witness :
  fst (Sample.instrumentFunction Sample.whileLoop Sample.world0) = Sample.whileLoop /\
  fst (Sample.instrumentFunction Sample.consoleLogCall Sample.world0)
  = Sample.consoleLogCall.
Proof.
  split.
  - apply (instrumentFunction_passes_through Sample.getHash Sample.getText
             Sample.createFunctionData Sample.createIncrementCallCount
             Sample.createBeginFunctionLog Sample.createEndFunctionLog
             Sample.createLoopData Sample.createIncrementIteration
             Sample.createInitStmt Sample.whileLoop Sample.world0);
      [reflexivity | discriminate | reflexivity].
  - apply (instrumentFunction_passes_through Sample.getHash Sample.getText
             Sample.createFunctionData Sample.createIncrementCallCount
             Sample.createBeginFunctionLog Sample.createEndFunctionLog
             Sample.createLoopData Sample.createIncrementIteration
             Sample.createInitStmt Sample.consoleLogCall Sample.world0);
      [reflexivity | intros _; reflexivity | reflexivity].
Defined.

(** * Further properties of the instrumentor *)

(** ** Strings *)

Lemma hasChar_append c s t :
  hasChar c (s ++ t)%string = hasChar c s || hasChar c t.
Proof.
  induction s as [|a s IH]; simpl; [reflexivity|].
  rewrite IH. now rewrite orb_assoc.
Qed.

Lemma hasChar_prefix c p s :
  String.prefix p s = true -> hasChar c p = true -> hasChar c s = true.
Proof.
  revert s. induction p as [|a p IH]; intros s Hp Hc; [discriminate Hc|].
  destruct s as [|b s]; [discriminate Hp|].
  simpl in Hp. destruct (ascii_dec a b) as [->|]; [|discriminate Hp].
  simpl in *. destruct (Ascii.eqb b c); [reflexivity|].
  simpl in *. eauto.
Qed.

(** Every excluded name holds a ".", so a filtered name does too. *)
Lemma notExcluded_false_hasDot name :
  notExcluded name EXCLUDED_FUNCTIONS = false -> hasChar "." name = true.
Proof.
  intros H. apply notExcluded_false in H as (e & He & Hm).
  assert (Hdot : hasChar "." e = true).
  { simpl in He. repeat destruct He as [<- | He]; try reflexivity. destruct He. }
  destruct Hm as [-> | Hp]; [exact Hdot|].
  unfold startsWith in Hp. eapply hasChar_prefix; [exact Hp|].
  rewrite hasChar_append, Hdot. reflexivity.
Qed.

(** X5. The name used in the trace messages and in the generated
    timing names holds no "." any more and has the length of the resolved
    name; a name without "." is used as it is. *)
Theorem replaceAll_dots_gone s :
  hasChar "." (replaceAll "." "_" s) = false /\
  String.length (replaceAll "." "_" s) = String.length s /\
  (hasChar "." s = false -> replaceAll "." "_" s = s).
Proof.
  induction s as [|a s (IH1 & IH2 & IH3)]; [repeat split|].
  simpl. destruct (Ascii.eqb_spec a ".") as [->|Hne].
  - repeat split; [exact IH1 | now rewrite IH2 | discriminate].
  - repeat split.
    + destruct (Ascii.eqb_spec a ".") as [|_]; [contradiction | exact IH1].
    + now rewrite IH2.
    + intros H. now rewrite IH3.
Qed.

(** ** Name resolution, continued *)

Section NameResolverChains.

Variable getHash : string -> string.
Variable getText : Node -> string.

Local Abbreviation resolve := (getFunctionName getHash getText).
Local Abbreviation shouldInstrument := (shouldInstrumentCall getHash getText).

Lemma accessChain_shape e m ms :
  otherShape (accessChain (PropertyAccessExpression e m) ms) = false.
Proof.
  destruct ms as [|x ms] using rev_ind; [reflexivity|].
  now rewrite accessChain_snoc.
Qed.

(** X1. A call through a chain of members that starts at a name, such
    as [a.b.c()], resolves to the dotted path "a.b.c". *)
Theorem getFunctionName_identifier_chain i x m1 ms ta args :
  resolve (CallExpression i (accessChain (Identifier x) (m1 :: ms)) ta args)
  = dotted (text x) (m1 :: ms).
Proof.
  change (accessChain (Identifier x) (m1 :: ms))
    with (accessChain (PropertyAccessExpression (Identifier x) m1) ms).
  rewrite (resolve_named_callee getHash getText) with (m := m1).
  - now rewrite resolve_chain.
  - apply accessChain_shape.
  - apply accessChain_not_this.
Qed.

(** X2. A call through a chain of members that starts at [this], such
    as [this.a.b()], resolves to "this.a.b": "this." and the first member,
    then every further member. *)
Theorem getFunctionName_this_chain i m1 ms ta args :
  resolve (CallExpression i (accessChain ThisKeyword (m1 :: ms)) ta args)
  = dotted ("this." ++ text m1) ms.
Proof.
  destruct ms as [|m2 ms]; [reflexivity|].
  change (accessChain ThisKeyword (m1 :: m2 :: ms))
    with (accessChain (PropertyAccessExpression
                         (PropertyAccessExpression ThisKeyword m1) m2) ms).
  rewrite (resolve_named_callee getHash getText) with (m := m2).
  - now rewrite resolve_chain.
  - apply accessChain_shape.
  - apply accessChain_not_this.
Qed.

(** X3. No excluded name starts like "this." or "anonymous_": every
    method call on [this] and every call with an anonymous name passes the
    exclusion filter, whatever the member or the hash is. *)
Theorem shouldInstrumentCall_this_and_anonymous node w rest :
  getFunctionName getHash getText node = ("this." ++ rest)%string
  \/ getFunctionName getHash getText node = ("anonymous_" ++ rest)%string ->
  fst (shouldInstrumentCall getHash getText node w) = true.
Proof.
  intros H. rewrite shouldInstrument_fst.
  destruct H as [-> | ->]; reflexivity.
Qed.

(** X4. A call of a bare identifier (its text holds no ".") always
    passes the exclusion filter. *)
Theorem shouldInstrumentCall_bare_identifier i x ta args w :
  hasChar "." (text x) = false ->
  fst (shouldInstrument (CallExpression i (Identifier x) ta args) w) = true.
Proof.
  intros Hx. rewrite shouldInstrument_fst.
  destruct (notExcluded _ EXCLUDED_FUNCTIONS) eqn:E; [reflexivity|].
  apply notExcluded_false_hasDot in E. simpl in E. congruence.
Qed.

Lemma prefix_append p s t :
  String.prefix p s = true -> String.prefix p (s ++ t) = true.
Proof.
  revert s. induction p as [|a p IH]; intros s H;
    [now destruct (s ++ t)%string|].
  destruct s as [|b s]; [discriminate H|].
  simpl in *. destruct (ascii_dec a b); [auto | discriminate H].
Qed.

Lemma prefix_self_append p t : String.prefix p (p ++ t) = true.
Proof.
  induction p as [|a p IH]; simpl; [now destruct t|].
  destruct (ascii_dec a a); [exact IH | contradiction].
Qed.

Lemma string_append_assoc (a b c : string) :
  ((a ++ b) ++ c)%string = (a ++ b ++ c)%string.
Proof.
  induction a as [|x a IH]; [reflexivity|].
  change (String x ((a ++ b) ++ c) = String x (a ++ b ++ c))%string.
  now f_equal.
Qed.

Lemma dotted_cons_prefix e m ms :
  String.prefix (e ++ ".") (dotted e (m :: ms)) = true.
Proof.
  induction ms as [|x ms IH] using rev_ind.
  - unfold dotted. cbn [fold_left].
    replace (e ++ "." ++ text m)%string with ((e ++ ".") ++ text m)%string
      by apply string_append_assoc.
    apply prefix_self_append.
  - change (m :: ms ++ [x]) with ((m :: ms) ++ [x]).
    unfold dotted in *. rewrite fold_left_app. cbn [fold_left].
    now apply prefix_append.
Qed.

(** X14. The filter also covers the members of an excluded function: a
    call whose resolved name is an excluded name followed by further members,
    such as [console.log.bind(x)], does not pass. *)
Theorem shouldInstrumentCall_members_of_excluded node w e ms :
  In e EXCLUDED_FUNCTIONS ->
  resolve node = dotted e ms ->
  fst (shouldInstrument node w) = false.
Proof.
  intros He Hn. rewrite shouldInstrument_fst, Hn.
  apply notExcluded_false. exists e. split; [exact He|].
  destruct ms as [|m ms]; [left; reflexivity|].
  right. apply dotted_cons_prefix.
Qed.

End NameResolverChains.

(** ** The tracker along a traversal *)

Section Tracker.

Variable getHash : string -> string.
Variable getText : Node -> string.
Variable createFunctionData : string -> Fac Node.
Variable createIncrementCallCount : string -> Fac Node.
Variable createBeginFunctionLog : Ident -> Fac Node.
Variable createEndFunctionLog : string -> Ident -> Ident -> Fac (list Node).
Variable createLoopData : string -> Fac Node.
Variable createIncrementIteration : string -> Fac Node.
Variable createInitStmt : Fac (list Node).

Local Abbreviation resolve := (getFunctionName getHash getText).
Local Abbreviation shouldInstrument := (shouldInstrumentCall getHash getText).
Local Abbreviation instrumentCall :=
  (_instrumentCall getHash getText createFunctionData createIncrementCallCount
                   createBeginFunctionLog createEndFunctionLog).
Local Abbreviation instrumentLoop :=
  (_instrumentLoop getHash getText createLoopData createIncrementIteration).
Local Abbreviation instrument :=
  (instrumentFunction getHash getText createFunctionData createIncrementCallCount
     createBeginFunctionLog createEndFunctionLog createLoopData
     createIncrementIteration createInitStmt).
Local Abbreviation reaches :=
  (visits getHash getText createFunctionData createIncrementCallCount
     createBeginFunctionLog createEndFunctionLog createLoopData
     createIncrementIteration createInitStmt).

Ltac exec :=
  unfold mbind, M_bind, Fac_bind, mret, M_ret, Fac_ret, getWorld, liftF,
    setInstrumented, setMarker, consoleLog, createConsoleLogStatement,
    createUniqueName, createCallExpression;
  cbn [fst snd factory isInstrumented marked console nextNodeId
       nextAutoGenerateId text].

(** A factory computation touches the factory only. *)
Lemma liftF_frame {A} (c : Fac A) w :
  isInstrumented (snd (liftF c w)) = isInstrumented w /\
  marked (snd (liftF c w)) = marked w /\
  console (snd (liftF c w)) = console w.
Proof. unfold liftF. now destruct (c (factory w)). Qed.

(** What a visit of a node that is no call does to the world. *)
Lemma instrument_not_call node w :
  isCallExpression node = false ->
  isInstrumented (snd (instrument node w)) = isInstrumented w /\
  marked (snd (instrument node w)) = marked w /\
  console (snd (instrument node w)) = console w.
Proof.
  intros Hc.
  destruct node; try discriminate Hc;
    try (unfold instrumentFunction;
         unfold mbind, M_bind, mret, M_ret;
         cbn [isCallExpression isForStatement isForOfStatement
              isForInStatement orb fst snd];
         first [ now repeat split | apply liftF_frame ]).
  unfold instrumentFunction, mbind, M_bind, mret, M_ret.
  pose proof (liftF_frame createInitStmt w) as H.
  now destruct (liftF createInitStmt w).
Qed.

(** What a visit of a call does to the world: one console line in every
    case; the tracker changes only when the call is wrapped. *)
Lemma instrument_call_world i callee ta args w :
  let node := CallExpression i callee ta args in
  let name := resolve node in
  let w' := snd (instrument node w) in
  console w' = console w ++ [("functionName: " ++ name)%string] /\
  ((notExcluded name EXCLUDED_FUNCTIONS = false
    \/ (isInstrumented w !! name = Some true /\ i ∈ marked w)) ->
   fst (instrument node w) = node /\
   isInstrumented w' = isInstrumented w /\ marked w' = marked w) /\
  (notExcluded name EXCLUDED_FUNCTIONS = true ->
   ~ (isInstrumented w !! name = Some true /\ i ∈ marked w) ->
   isIife (fst (instrument node w)) = true /\
   isInstrumented w' = <[name := true]> (isInstrumented w) /\
   marked w' = {[ i ]} ∪ marked w).
Proof.
  intros node name w'. subst w'. unfold node.
  rewrite (instrument_call getHash getText createFunctionData
             createIncrementCallCount createBeginFunctionLog createEndFunctionLog
             createLoopData createIncrementIteration createInitStmt).
  fold node name.
  set (w1 := snd (shouldInstrument node w)).
  assert (Hc1 : console w1 = console w ++ [("functionName: " ++ name)%string])
    by reflexivity.
  assert (Hi1 : isInstrumented w1 = isInstrumented w) by reflexivity.
  assert (Hm1 : marked w1 = marked w) by reflexivity.
  destruct (notExcluded name EXCLUDED_FUNCTIONS) eqn:Ex.
  - destruct (skip_decision w1 name i) as [[Hf Hm]|Hnot].
    + unfold node. rewrite (instrumentCall_skips getHash getText createFunctionData
                 createIncrementCallCount createBeginFunctionLog
                 createEndFunctionLog i callee ta args w1 Hf Hm).
      cbn [fst snd]. split; [exact Hc1|]. split.
      * intros _. auto.
      * intros _ Hnot. rewrite Hi1, Hm1 in *. destruct Hnot. auto.
    + destruct (instrumentCall_wraps getHash getText createFunctionData
                  createIncrementCallCount createBeginFunctionLog
                  createEndFunctionLog i callee ta args w1 Hnot)
        as (fd & f1 & ic & f2 & bl & f3 & el & f4 & _ & _ & _ & _ & E).
      fold node name in E. rewrite E. cbn [fst snd console isInstrumented marked].
      split; [exact Hc1|]. split.
      * intros [Hx | Hsk]; [discriminate Hx|].
        rewrite Hi1, Hm1 in Hnot. contradiction.
      * intros _ _. rewrite Hi1, Hm1. repeat split.
  - cbn [fst snd]. split; [exact Hc1|]. split.
    + intros _. auto.
    + intros Hx. discriminate Hx.
Qed.

(** One visit either leaves the tracker as it is or adds one flag, with
    the value [true], and one marker. *)
Lemma instrument_tracker node w :
  (isInstrumented (snd (instrument node w)) = isInstrumented w /\
   marked (snd (instrument node w)) = marked w)
  \/ exists name i,
      isInstrumented (snd (instrument node w)) = <[name := true]> (isInstrumented w) /\
      marked (snd (instrument node w)) = {[ i ]} ∪ marked w.
Proof.
  destruct (isCallExpression node) eqn:Hc.
  - destruct node; try discriminate Hc.
    destruct (instrument_call_world nid node typeArguments arguments w)
      as (_ & Hsame & Hwrap).
    cbv zeta in Hsame, Hwrap.
    destruct (notExcluded _ EXCLUDED_FUNCTIONS) eqn:Ex.
    + destruct (skip_decision w
                  (resolve (CallExpression nid node typeArguments arguments)) nid)
        as [Hsk|Hnot].
      * left. now apply Hsame; right.
      * right. destruct (Hwrap eq_refl Hnot) as (_ & H1 & H2). eauto.
    + left. now apply Hsame; left.
  - left. destruct (instrument_not_call node w Hc) as (H1 & H2 & _). auto.
Qed.

(** X6. The trace statements that [_instrumentCall] builds are calls of
    [console.log], an excluded name: when the traversal reaches such a call
    it comes back unchanged and the tracker stays as it is. *)
Theorem trace_statements_are_left_alone msg f w :
  match fst (createConsoleLogStatement msg f) with
  | ExpressionStatement c =>
      fst (instrument c w) = c /\
      isInstrumented (snd (instrument c w)) = isInstrumented w /\
      marked (snd (instrument c w)) = marked w
  | _ => False
  end.
Proof.
  unfold createConsoleLogStatement. exec.
  apply instrument_call_world. left. reflexivity.
Qed.

(** X7. Only a call that passes the exclusion filter can change the
    tracker: after the visit of a loop, a source file, any other node or an
    excluded call, the [isInstrumented] map and the markers are what they
    were. *)
Theorem instrumentFunction_leaves_tracker node w :
  (isCallExpression node = true -> fst (shouldInstrument node w) = false) ->
  isInstrumented (snd (instrument node w)) = isInstrumented w /\
  marked (snd (instrument node w)) = marked w.
Proof.
  intros Hex. destruct (isCallExpression node) eqn:Hc.
  - destruct node; try discriminate Hc.
    specialize (Hex eq_refl). rewrite shouldInstrument_fst in Hex.
    destruct (instrument_call_world nid node typeArguments arguments w)
      as (_ & Hsame & _).
    now apply Hsame; left.
  - destruct (instrument_not_call node w Hc) as (H1 & H2 & _). auto.
Qed.

(** X8. The visit of a call that passes the filter and is not yet
    handled returns a wrapper, sets the flag of the resolved name and puts
    the marker on this node; no other flag and no other marker changes. *)
Theorem instrumentFunction_marks_one i callee ta args w :
  let node := CallExpression i callee ta args in
  let name := resolve node in
  let w' := snd (instrument node w) in
  fst (shouldInstrument node w) = true ->
  ~ (isInstrumented w !! name = Some true /\ i ∈ marked w) ->
  isIife (fst (instrument node w)) = true /\
  isInstrumented w' = <[name := true]> (isInstrumented w) /\
  marked w' = {[ i ]} ∪ marked w /\
  (forall k, k <> name -> isInstrumented w' !! k = isInstrumented w !! k) /\
  (forall j, j <> i -> (j ∈ marked w' <-> j ∈ marked w)).
Proof.
  intros node name w' Hpass Hnot.
  rewrite shouldInstrument_fst in Hpass.
  destruct (instrument_call_world i callee ta args w) as (_ & _ & Hwrap).
  destruct (Hwrap Hpass Hnot) as (Hi & Hf & Hm). fold node name w' in Hi, Hf, Hm.
  split; [exact Hi|]. split; [exact Hf|]. split; [exact Hm|]. split.
  - intros k Hk. rewrite Hf. now apply lookup_insert_ne.
  - intros j Hj. rewrite Hm. rewrite elem_of_union, elem_of_singleton.
    split; [intros [?|?]; [contradiction | assumption] | auto].
Qed.

(** X13. Every visit of a call expression writes one line,
    "functionName: " and the resolved name, to the console, whether the call
    is excluded, skipped or wrapped; the visit of any other node writes
    nothing. *)
Theorem instrumentFunction_console node w :
  console (snd (instrument node w))
  = console w ++ (if isCallExpression node
                  then [("functionName: " ++ resolve node)%string] else []).
Proof.
  destruct (isCallExpression node) eqn:Hc.
  - destruct node; try discriminate Hc.
    apply (instrument_call_world nid node typeArguments arguments w).
  - destruct (instrument_not_call node w Hc) as (_ & _ & H).
    rewrite H. now rewrite app_nil_r.
Qed.

(** X9. Along any sequence of visits the tracker only grows and holds
    nothing but [true]: a name that has an entry is still flagged later, a
    marker is never taken off a node, and, when every entry is [true] at the
    start, every entry is [true] in every world reached. *)
Theorem visits_keep_the_tracker w w' :
  visits getHash getText createFunctionData createIncrementCallCount
    createBeginFunctionLog createEndFunctionLog createLoopData
    createIncrementIteration createInitStmt w w' ->
  (forall k v, isInstrumented w !! k = Some v -> v = true) ->
  (forall k v, isInstrumented w' !! k = Some v -> v = true) /\
  (forall k, is_Some (isInstrumented w !! k) -> isInstrumented w' !! k = Some true) /\
  marked w ⊆ marked w'.
Proof.
  induction 1 as [w | w n w' _ IH]; intros Hall.
  - split; [exact Hall|]. split; [|reflexivity].
    intros k [v Hv]. rewrite Hv. f_equal. eauto.
  - assert (Hstep : (forall k v, isInstrumented (snd (instrument n w)) !! k = Some v
                                 -> v = true) /\
                    (forall k, is_Some (isInstrumented w !! k) ->
                               is_Some (isInstrumented (snd (instrument n w)) !! k)) /\
                    marked w ⊆ marked (snd (instrument n w))).
    { destruct (instrument_tracker n w) as [[Hf Hm] | (name & i & Hf & Hm)];
        rewrite Hf, Hm.
      - split; [exact Hall|]. split; [auto | reflexivity].
      - split; [|split].
        + intros k v. destruct (decide (name = k)) as [<-|Hne].
          * rewrite lookup_insert_eq. congruence.
          * rewrite lookup_insert_ne by assumption. apply Hall.
        + intros k Hk. destruct (decide (name = k)) as [<-|Hne].
          * rewrite lookup_insert_eq. eauto.
          * now rewrite lookup_insert_ne.
        + apply union_subseteq_r. }
    destruct Hstep as (Hall1 & Hdom1 & Hsub1).
    destruct (IH Hall1) as (Hall' & Hdom' & Hsub').
    split; [exact Hall'|]. split.
    + intros k Hk. apply Hdom', Hdom1, Hk.
    + etransitivity; eassumption.
Qed.

(** X10. Two different call nodes with the same resolved name, neither
    of them marked: the visit of the first wraps it, the visit of the second
    wraps it too although the name is flagged by then, and after that both
    nodes are handed back unchanged. *)
Theorem same_name_calls_are_each_wrapped_once i j ci ti ai cj tj aj w :
  let ni := CallExpression i ci ti ai in
  let nj := CallExpression j cj tj aj in
  let w1 := snd (instrument ni w) in
  let w2 := snd (instrument nj w1) in
  i <> j ->
  resolve ni = resolve nj ->
  fst (shouldInstrument ni w) = true ->
  i ∉ marked w -> j ∉ marked w ->
  isIife (fst (instrument ni w)) = true /\
  isInstrumented w1 !! resolve nj = Some true /\
  isIife (fst (instrument nj w1)) = true /\
  fst (instrument ni w2) = ni /\
  fst (instrument nj w2) = nj.
Proof.
  intros ni nj w1 w2 Hij Hname Hpass Hi Hj.
  rewrite shouldInstrument_fst in Hpass.
  destruct (instrument_call_world i ci ti ai w) as (_ & _ & Hwrap1).
  destruct Hwrap1 as (Hiife1 & Hf1 & Hm1); [exact Hpass | tauto |].
  fold ni w1 in Hiife1, Hf1, Hm1.
  assert (Hflag1 : isInstrumented w1 !! resolve nj = Some true).
  { rewrite Hf1, <- Hname. apply lookup_insert_eq. }
  destruct (instrument_call_world j cj tj aj w1) as (_ & _ & Hwrap2).
  destruct Hwrap2 as (Hiife2 & Hf2 & Hm2).
  { fold nj. now rewrite <- Hname. }
  { intros [_ Hin]. rewrite Hm1 in Hin.
    apply elem_of_union in Hin as [Hin|Hin]; [|contradiction].
    apply elem_of_singleton in Hin. congruence. }
  fold nj w2 in Hiife2, Hf2, Hm2.
  split; [exact Hiife1|]. split; [exact Hflag1|]. split; [exact Hiife2|].
  assert (Hflag2 : isInstrumented w2 !! resolve nj = Some true).
  { rewrite Hf2. apply lookup_insert_eq. }
  split.
  - destruct (instrument_call_world i ci ti ai w2) as (_ & Hsame & _).
    apply Hsame. right. fold ni. rewrite Hname. split; [exact Hflag2|].
    rewrite Hm2, Hm1. apply elem_of_union_r, elem_of_union_l, elem_of_singleton.
    reflexivity.
  - destruct (instrument_call_world j cj tj aj w2) as (_ & Hsame & _).
    apply Hsame. right. fold nj. split; [exact Hflag2|].
    rewrite Hm2. apply elem_of_union_l, elem_of_singleton. reflexivity.
Qed.

(** X11. Nothing guards a source file against a second visit: the
    second visit puts a second initialization sequence in front of the
    first. *)
Theorem instrumentFunction_sourceFile_twice statements w w' :
  fst (instrument (fst (instrument (SourceFile statements) w)) w')
  = SourceFile (fst (createInitStmt (factory w'))
                  ++ fst (createInitStmt (factory w)) ++ statements).
Proof.
  unfold instrumentFunction at 2. exec.
  destruct (createInitStmt (factory w)) as [init f1]. cbn [fst].
  unfold instrumentFunction. exec.
  now destruct (createInitStmt (factory w')).
Qed.

(** X12. The key under which a loop is registered is made of the loop
    kind and the hash of the text of the loop only: two loops of the three
    kinds get the same key exactly when they are of the same kind and their
    texts have the same hash, whatever the state of the factory is. *)
Theorem loop_key_is_kind_and_hash n1 n2 f1 f2 :
  isInstrumentedLoopKind n1 = true -> isInstrumentedLoopKind n2 = true ->
  (fst (getNodeUniqueName getHash getText n1 f1)
   = fst (getNodeUniqueName getHash getText n2 f2)
   <-> isForStatement n1 = isForStatement n2 /\
       isForOfStatement n1 = isForOfStatement n2 /\
       getHash (getText n1) = getHash (getText n2)).
Proof.
  intros H1 H2. rewrite !getNodeUniqueName_key.
  destruct n1; try discriminate H1; destruct n2; try discriminate H2;
    cbn [isForStatement isForOfStatement isForInStatement];
    (split;
     [ intros H; simpl in H; first [discriminate H | injection H as H; auto]
     | intros (K1 & K2 & K3); first [discriminate K1 | discriminate K2 | now rewrite K3] ]).
Qed.

End Tracker.

(** ** The further properties on the sample host *)

(** "add" is used as it is. *)
Lemma replaceAll_dots_gone_witness : replaceAll "." "_" "add" = "add"%string.
Proof.
  destruct (replaceAll_dots_gone "add") as (_ & _ & H).
  apply H. reflexivity.
Defined.

(** [this.run()] and [(g)(1)] pass the filter. *)
Lemma shouldInstrumentCall_this_and_anonymous_witness :
  fst (Sample.shouldInstrumentCall Sample.thisRunCall Sample.world0) = true /\
  fst (Sample.shouldInstrumentCall Sample.parenCall Sample.world0) = true.
Proof.
  split.
  - apply (shouldInstrumentCall_this_and_anonymous Sample.getHash Sample.getText
             Sample.thisRunCall Sample.world0 "run").
    left. reflexivity.
  - apply (shouldInstrumentCall_this_and_anonymous Sample.getHash Sample.getText
             Sample.parenCall Sample.world0 (Sample.getHash "(g)(1)")).
    right. reflexivity.
Defined.

(** [add(...)] passes the filter. *)
Lemma shouldInstrumentCall_bare_identifier_witness :
  fst (Sample.shouldInstrumentCall Sample.addCall Sample.world0) = true.
Proof.
  apply (shouldInstrumentCall_bare_identifier Sample.getHash Sample.getText
           1%positive (createIdentifier "add") None
           [Sample.num "1"; Sample.multiplyCall] Sample.world0).
  reflexivity.
Defined.

(** [console.log.bind(x)] does not pass. *)
Lemma shouldInstrumentCall_members_of_excluded_witness :
  fst (Sample.shouldInstrumentCall Sample.consoleLogBindCall Sample.world0) = false.
Proof.
  apply (shouldInstrumentCall_members_of_excluded Sample.getHash Sample.getText
           Sample.consoleLogBindCall Sample.world0 "console.log"
           [createIdentifier "bind"]).
  - simpl. auto.
  - reflexivity.
Defined.

(** A [for] loop and an excluded call leave the tracker of [world1]. *)
Lemma instrumentFunction_leaves_tracker_witness :
  isInstrumented (snd (Sample.instrumentFunction Sample.forLoop Sample.world1))
  = isInstrumented Sample.world1 /\
  marked (snd (Sample.instrumentFunction Sample.consoleLogCall Sample.world1))
  = marked Sample.world1.
Proof.
  split.
  - apply (instrumentFunction_leaves_tracker Sample.getHash Sample.getText
             Sample.createFunctionData Sample.createIncrementCallCount
             Sample.createBeginFunctionLog Sample.createEndFunctionLog
             Sample.createLoopData Sample.createIncrementIteration
             Sample.createInitStmt Sample.forLoop Sample.world1).
    discriminate.
  - apply (instrumentFunction_leaves_tracker Sample.getHash Sample.getText
             Sample.createFunctionData Sample.createIncrementCallCount
             Sample.createBeginFunctionLog Sample.createEndFunctionLog
             Sample.createLoopData Sample.createIncrementIteration
             Sample.createInitStmt Sample.consoleLogCall Sample.world1).
    intros _. reflexivity.
Defined.

(** [multiply(2, 3)] in [world1]: a wrapper, one more flag, one more marker. *)
Lemma instrumentFunction_marks_one_witness :
  isIife (fst (Sample.instrumentFunction Sample.multiplyCall Sample.world1)) = true /\
  marked (snd (Sample.instrumentFunction Sample.multiplyCall Sample.world1))
  = {[ 2%positive ]} ∪ marked Sample.world1.
Proof.
  pose proof (instrumentFunction_marks_one Sample.getHash Sample.getText
                Sample.createFunctionData Sample.createIncrementCallCount
                Sample.createBeginFunctionLog Sample.createEndFunctionLog
                Sample.createLoopData Sample.createIncrementIteration
                Sample.createInitStmt 2%positive (Sample.ident "multiply") None
                [Sample.num "2"; Sample.num "3"] Sample.world1) as H.
  cbv zeta in H.
  destruct H as (Hi & _ & Hm & _).
  - reflexivity.
  - intros [Hf _]. vm_compute in Hf. discriminate Hf.
  - exact (conj Hi Hm).
Defined.

(** After the visit of [multiply(2, 3)] in [world1] the name "add" is still
    flagged. *)
Lemma visits_keep_the_tracker_witness :
  isInstrumented (snd (Sample.instrumentFunction Sample.multiplyCall Sample.world1))
    !! "add"%string = Some true.
Proof.
  destruct (visits_keep_the_tracker Sample.getHash Sample.getText
              Sample.createFunctionData Sample.createIncrementCallCount
              Sample.createBeginFunctionLog Sample.createEndFunctionLog
              Sample.createLoopData Sample.createIncrementIteration
              Sample.createInitStmt Sample.world1
              (snd (Sample.instrumentFunction Sample.multiplyCall Sample.world1)))
    as (_ & H & _).
  - eapply visits_step. apply visits_refl.
  - intros k v Hk. simpl in Hk.
    apply lookup_singleton_Some in Hk as [_ <-]. reflexivity.
  - apply H. exists true. exact sample_world1_flag.
Defined.

(** [add(1, multiply(2, 3))] and [add(4, 5)] in the fresh world. *)
Lemma same_name_calls_are_each_wrapped_once_witness :
  let w1 := snd (Sample.instrumentFunction Sample.addCall Sample.world0) in
  let w2 := snd (Sample.instrumentFunction Sample.addCall2 w1) in
  isIife (fst (Sample.instrumentFunction Sample.addCall Sample.world0)) = true /\
  isIife (fst (Sample.instrumentFunction Sample.addCall2 w1)) = true /\
  fst (Sample.instrumentFunction Sample.addCall w2) = Sample.addCall /\
  fst (Sample.instrumentFunction Sample.addCall2 w2) = Sample.addCall2.
Proof.
  intros w1 w2.
  pose proof (same_name_calls_are_each_wrapped_once Sample.getHash Sample.getText
                Sample.createFunctionData Sample.createIncrementCallCount
                Sample.createBeginFunctionLog Sample.createEndFunctionLog
                Sample.createLoopData Sample.createIncrementIteration
                Sample.createInitStmt
                1%positive 3%positive
                (Sample.ident "add") None [Sample.num "1"; Sample.multiplyCall]
                (Sample.ident "add") None [Sample.num "4"; Sample.num "5"]
                Sample.world0) as H.
  cbv zeta in H.
  destruct H as (H1 & _ & H2 & H3 & H4).
  - discriminate.
  - reflexivity.
  - reflexivity.
  - simpl. apply not_elem_of_empty.
  - simpl. apply not_elem_of_empty.
  - exact (conj H1 (conj H2 (conj H3 H4))).
Defined.

(** Two [for] loops with the same text share the key; a [for...of] loop
    never does. *)
Lemma loop_key_is_kind_and_hash_witness :
  fst (getNodeUniqueName Sample.getHash Sample.getText Sample.forLoop (mkFactory 100 0))
  = fst (getNodeUniqueName Sample.getHash Sample.getText Sample.forLoop2 (mkFactory 200 7)).
Proof.
  apply (loop_key_is_kind_and_hash Sample.getHash Sample.getText
           Sample.forLoop Sample.forLoop2 (mkFactory 100 0) (mkFactory 200 7)
           eq_refl eq_refl).
  repeat split.
Defined.

(** ** The instrumented loop at run time *)

Section LoopAtRunTime.

Variable getHash : string -> string.
Variable getText : Node -> string.
Variable createLoopData : string -> Fac Node.
Variable createIncrementIteration : string -> Fac Node.

Variable Store : Type.
Variable execOther : Node -> Store -> Completion * Store.
Variable headerStep : LoopHeader -> nat -> Store -> option bool * Store.
Variable headerLeave : LoopHeader -> Store -> Store.

Local Abbreviation run := (exec Store execOther headerStep headerLeave).
Local Abbreviation runLoop := (loopRun Store execOther headerStep headerLeave).

(** A block of two statements that complete normally and leave the state,
    followed by a third one, runs like the third one alone. *)
Lemma exec_after_bookkeeping fuel ld inc b m s :
  (forall s, run fuel ld s = Some (Normal, s)) ->
  (forall s, run fuel inc s = Some (Normal, s)) ->
  run fuel (Block [ld; inc; b] m) s = run fuel b s.
Proof.
  intros Hld Hinc.
  assert (E : run fuel (Block [ld; inc; b] m) s
              = match run fuel ld s with
                | Some (Normal, s1) =>
                    match run fuel inc s1 with
                    | Some (Normal, s2) =>
                        match run fuel b s2 with
                        | Some (Normal, s3) => Some (Normal, s3)
                        | other => other
                        end
                    | other => other
                    end
                | other => other
                end) by (destruct fuel; reflexivity).
  rewrite E, Hld, Hinc.
  destruct (run fuel b s) as [[[] s3]|]; reflexivity.
Qed.

(** The iterations depend on the body through its runs only. *)
Lemma iterate_ext fuel step leave body1 body2 :
  (forall s, body1 s = body2 s) ->
  forall k s, iterate Store fuel step leave body1 k s
              = iterate Store fuel step leave body2 k s.
Proof.
  intros Hb. induction fuel as [|f IH]; intros k s; [reflexivity|].
  simpl. destruct (step k s) as [[[|]|] s1]; try reflexivity.
  rewrite Hb. destruct (body2 s1) as [[[] s2]|]; try reflexivity; apply IH.
Qed.

(** The run of a loop of the three kinds is the run of its iterations. *)
Lemma exec_loop fuel n h b s :
  loopParts n = Some (h, b) ->
  run fuel n s = dropCount Store (runLoop fuel n s).
Proof.
  intros Hp. unfold loopRun. rewrite Hp.
  destruct n; try discriminate Hp; simpl in Hp; injection Hp as <- <-;
    destruct fuel; reflexivity.
Qed.

(** C5. For a [for], [for...of] or [for...in] loop, [_instrumentLoop]
    returns a loop with the same header (the same kind and the same
    initializer, condition and incrementor, or await modifier, initializer
    and iteration expression) whose body is the block of the loop
    registration, the iteration increment and the original body statement, in
    this order.  At run time, when the two statements of [Creator] complete
    normally and leave the state of the program as it is, a run of the new
    body is a run of the original body; so the instrumented loop completes as
    the original loop does, in the same state and after the same number of
    iterations, each of which runs the original body once. *)
Theorem instrumentLoop_keeps_iterations node f :
  isInstrumentedLoopKind node = true ->
  let node' := fst (_instrumentLoop getHash getText createLoopData
                      createIncrementIteration node f) in
  let key := fst (getNodeUniqueName getHash getText node f) in
  let f1 := mkFactory (nextNodeId f) (N.succ (N.succ (nextAutoGenerateId f))) in
  let ld := fst (createLoopData key f1) in
  let inc := fst (createIncrementIteration key (snd (createLoopData key f1))) in
  exists h b,
    loopParts node = Some (h, b) /\
    loopParts node' = Some (h, Block [ld; inc; b] true) /\
    key = (match h with
           | ForHeader _ _ _ => "for_"
           | ForOfHeader _ _ _ => "forof_"
           | ForInHeader _ _ => "forin_"
           end ++ getHash (getText node))%string /\
    ((forall fuel s, run fuel ld s = Some (Normal, s)) ->
     (forall fuel s, run fuel inc s = Some (Normal, s)) ->
     forall fuel s,
       run fuel (Block [ld; inc; b] true) s = run fuel b s /\
       runLoop fuel node' s = runLoop fuel node s /\
       run fuel node' s = run fuel node s).
Proof.
  intros Hk node' key f1 ld inc.
  assert (Hparts : exists h b, loopParts node = Some (h, b) /\
                               loopParts node' = Some (h, Block [ld; inc; b] true) /\
                               key = (match h with
                                      | ForHeader _ _ _ => "for_"
                                      | ForOfHeader _ _ _ => "forof_"
                                      | ForInHeader _ _ => "forin_"
                                      end ++ getHash (getText node))%string).
  { subst node'. rewrite instrumentLoop_exact by exact Hk.
    subst key ld inc f1. rewrite getNodeUniqueName_key.
    destruct node; try discriminate Hk; eexists _, _; repeat split. }
  destruct Hparts as (h & b & Hp & Hp' & Hkey).
  exists h, b. split; [exact Hp|]. split; [exact Hp'|]. split; [exact Hkey|].
  intros Hld Hinc fuel s.
  assert (Hbody : forall fuel s, run fuel (Block [ld; inc; b] true) s = run fuel b s).
  { intros g t. apply exec_after_bookkeeping; auto. }
  assert (Hloop : runLoop fuel node' s = runLoop fuel node s).
  { unfold loopRun. rewrite Hp, Hp'. destruct fuel as [|g]; [reflexivity|].
    apply iterate_ext. intros t. apply Hbody. }
  split; [apply Hbody|]. split; [exact Hloop|].
  rewrite (exec_loop fuel node' h _ s Hp'), (exec_loop fuel node h b s Hp).
  now rewrite Hloop.
Qed.

End LoopAtRunTime.

(** The sample [for] loop on the sample host: instrumented, it still ends
    normally after five iterations with [i = 5] and [sum = 10]. *)
Lemma instrumentLoop_keeps_iterations_witness :
  loopRun Sample.Store Sample.execOther Sample.headerStep Sample.headerLeave 10
    (fst (Sample._instrumentLoop Sample.forLoop (mkFactory 100 0))) (0, 0)
  = Some (Normal, (5, 10), 5).
Proof.
  destruct (instrumentLoop_keeps_iterations Sample.getHash Sample.getText
              Sample.createLoopData Sample.createIncrementIteration
              Sample.Store Sample.execOther Sample.headerStep Sample.headerLeave
              Sample.forLoop (mkFactory 100 0) eq_refl)
    as (h & b & _ & _ & _ & H).
  destruct (H (fun fuel s => ltac:(destruct fuel; reflexivity))
              (fun fuel s => ltac:(destruct fuel; reflexivity)) 10 (0, 0))
    as (_ & Hloop & _).
  unfold Sample._instrumentLoop. rewrite Hloop. reflexivity.
Defined.
